(** * VRChat log viewer: the ingestion and display-list engine

    A shallow embedding of [vrchat_log_viewer_modular.pyw] (class
    [VRChatLogViewer]): the filter/collapse pass [apply_filter], the file
    loader [load_log_file], the tail check [check_for_updates] and the
    group/message panels, followed by the properties the specification
    states about them.

    Python [str] values are sequences of Unicode code points; they are
    modelled as lists of code points.  The viewer object is a record, its
    methods are state transformers. *)

From Stdlib Require Import String Ascii.
From Stdlib Require Import Bool Arith NArith ZArith Lia DecimalNat.
From Stdlib Require Import List Permutation Sorted.
Import ListNotations.
#[local] Open Scope list_scope.

Set Implicit Arguments.

(* ================================================================== *)
(** ** Text *)

Module Text.

(** A code point. *)
Definition char := N.
(** A Python [str]. *)
Definition str := list char.

Definition char_eqb (a b : char) : bool := N.eqb a b.

Fixpoint str_eqb (a b : str) : bool :=
  match a, b with
  | [], [] => true
  | x :: a', y :: b' => char_eqb x y && str_eqb a' b'
  | _, _ => false
  end.

(** An ASCII literal as a [str]. *)
Definition u (s : string) : str :=
  List.map N_of_ascii (list_ascii_of_string s).

(** [s.startswith(p)]. *)
Fixpoint starts_with (p s : str) : bool :=
  match p, s with
  | [], _ => true
  | _ :: _, [] => false
  | x :: p', y :: s' => char_eqb x y && starts_with p' s'
  end.

(** [p in s] on strings: [p] occurs as a contiguous block of [s]. *)
Fixpoint contains (s p : str) : bool :=
  starts_with p s ||
  match s with
  | [] => false
  | _ :: s' => contains s' p
  end.

(** Python's ordering of strings: lexicographic on code points. *)
Fixpoint str_ltb (a b : str) : bool :=
  match a, b with
  | _, [] => false
  | [], _ :: _ => true
  | x :: a', y :: b' => N.ltb x y || (N.eqb x y && str_ltb a' b')
  end.

(** [str(n)] for a non-negative integer. *)
Fixpoint uint_codes (d : Decimal.uint) : str :=
  match d with
  | Decimal.Nil => []
  | Decimal.D0 d => 48%N :: uint_codes d
  | Decimal.D1 d => 49%N :: uint_codes d
  | Decimal.D2 d => 50%N :: uint_codes d
  | Decimal.D3 d => 51%N :: uint_codes d
  | Decimal.D4 d => 52%N :: uint_codes d
  | Decimal.D5 d => 53%N :: uint_codes d
  | Decimal.D6 d => 54%N :: uint_codes d
  | Decimal.D7 d => 55%N :: uint_codes d
  | Decimal.D8 d => 56%N :: uint_codes d
  | Decimal.D9 d => 57%N :: uint_codes d
  end.

Definition str_of_nat (n : nat) : str := uint_codes (Nat.to_uint n).

(** The line boundaries of [str.splitlines]: LF, VT, FF, CR, FS, GS, RS,
    NEL, LINE SEPARATOR and PARAGRAPH SEPARATOR (CR LF counts as one). *)
Definition is_linebreak (c : char) : bool :=
  existsb (N.eqb c) [10; 11; 12; 13; 28; 29; 30; 133; 8232; 8233]%N.

(** [s.splitlines(keepends=True)], [cur] being the line under
    construction. *)
Fixpoint splitlines_from (cur : str) (s : str) : list str :=
  match s with
  | [] => match cur with [] => [] | _ :: _ => [cur] end
  | c :: rest =>
      if N.eqb c 13 then
        match rest with
        | d :: rest' =>
            if N.eqb d 10
            then (cur ++ [c; d]) :: splitlines_from [] rest'
            else (cur ++ [c]) :: splitlines_from [] rest
        | [] => (cur ++ [c]) :: splitlines_from [] rest
        end
      else if is_linebreak c
      then (cur ++ [c]) :: splitlines_from [] rest
      else splitlines_from (cur ++ [c]) rest
  end.

Definition splitlines_keepends (s : str) : list str := splitlines_from [] s.

(** [sep.join(parts)]. *)
Fixpoint join (sep : str) (parts : list str) : str :=
  match parts with
  | [] => []
  | [p] => p
  | p :: ps => p ++ sep ++ join sep ps
  end.

(** [s.replace(a, b)] for single characters [a] and [b]. *)
Definition replace_char (a b : char) (s : str) : str :=
  List.map (fun c => if char_eqb c a then b else c) s.

(** What the embedding takes from the Python library: [str.lower] and the
    character classes of the [re] module.  They are tables over all of
    Unicode, so the development is parametric in them. *)
Class PyText := {
  lower : str -> str;
  re_word : char -> bool;    (* \w *)
  re_space : char -> bool;   (* \s *)
  re_digit : char -> bool    (* \d *)
}.

Section Regex.
Context `{PyText}.

(** A character of the class [[\w\s]]. *)
Definition tag_char (c : char) : bool := re_word c || re_space c.

(** [[\w\s]+\]] matched at the head of [s]: the longest non-empty block
    of class characters that is followed by a closing bracket (greedy,
    giving characters back until the bracket fits). *)
Fixpoint match_tag_body (s : str) : option str :=
  match s with
  | [] => None
  | c :: rest =>
      if tag_char c then
        match match_tag_body rest with
        | Some b => Some (c :: b)
        | None =>
            match rest with
            | d :: _ => if N.eqb d 93 then Some [c] else None
            | [] => None
            end
        end
      else None
  end.

(** [re.search(r'\[([\w\s]+)\]', line)], returning [group(1)] of the
    leftmost match, [None] when there is no match. *)
Fixpoint search_tag (line : str) : option str :=
  match line with
  | [] => None
  | c :: rest =>
      match (if N.eqb c 91 then match_tag_body rest else None) with
      | Some t => Some t
      | None => search_tag rest
      end
  end.

(** [re.sub(r'\d+', 'N', s)]: every maximal run of digits becomes one
    letter N; [in_run] tells that the previous character was a digit. *)
Fixpoint sub_digits_from (in_run : bool) (s : str) : str :=
  match s with
  | [] => []
  | c :: rest =>
      if re_digit c then
        if in_run then sub_digits_from true rest
        else 78%N :: sub_digits_from true rest
      else c :: sub_digits_from false rest
  end.

Definition sub_digits (s : str) : str := sub_digits_from false s.

End Regex.

(** Python's [sorted(l, key=key, reverse=True)] for a key ordered by
    [ltb].  The library guarantees a stable sort, also under
    [reverse=True]; a stable sort has one possible result, computed here
    by insertion from the right. *)
Section Sorted.
Variables (A K : Type) (ltb : K -> K -> bool) (key : A -> K).

Fixpoint insert_desc (x : A) (l : list A) : list A :=
  match l with
  | [] => [x]
  | y :: l' =>
      if ltb (key x) (key y) then y :: insert_desc x l'
      else x :: l
  end.

Definition sorted_reverse (l : list A) : list A :=
  fold_right insert_desc [] l.

(** [a] may stand before [b] in descending order. *)
Definition not_below (a b : A) : Prop := ltb (key a) (key b) = false.

(** Neither key is below the other. *)
Definition key_equiv (k k' : K) : bool := negb (ltb k k') && negb (ltb k' k).

End Sorted.

End Text.

Import Text.

(* ================================================================== *)
(** ** Data model *)

(** [models.LogInfo], as [apply_filter] constructs and reads it. *)
Record LogInfo := {
  timestamp : str;
  level : str;
  content : str;
  tags : list str
}.

(** Modelled from the spec: [models.NotificationData] is declared in
    models.py, which is not among the sources; the spec gives it the
    fields [id], [group_id], [date] (receipt timestamp), [created_at] and
    [message].  The viewer itself reads only [date] and [message]. *)
Record NotificationData := {
  id : str;
  group_id : str;
  date : str;
  created_at : str;
  message : str
}.

(** A value of the [groups] dict: [{'name': ..., 'messages': [...]}]. *)
Record GroupInfo := {
  name : str;
  messages : list NotificationData
}.

(** The [show_filters] dict built by [apply_filter]. *)
Record ShowFilters := {
  sf_error : bool;
  sf_warning : bool;
  sf_debug : bool;
  sf_info : bool
}.

(** A Python dict with string keys, in insertion order, keys distinct. *)
Definition dict (V : Type) := list (str * V).

Fixpoint dict_get V (d : dict V) (k : str) : option V :=
  match d with
  | [] => None
  | (k', v) :: d' => if str_eqb k k' then Some v else dict_get d' k
  end.

Definition dict_keys V (d : dict V) : list str := List.map fst d.

(** What the viewer imports from utils.py and constants.py, neither of
    which is among the sources: the line parser, the level predicate, the
    notification extractor, the grouping function and two constants.  The
    development is parametric in them. *)
Class Utils := {
  parse_log_line : str -> bool -> LogInfo;
  should_show_log : str -> ShowFilters -> bool;
  parse_notifications : str -> list NotificationData;
  organize_notifications_by_group :
    list NotificationData -> dict str -> dict GroupInfo;
  GROUP_COLLAPSE_THRESHOLD : nat;
  LARGE_FILE_THRESHOLD_MB : Z
}.

(** A [ttk.Combobox]: its list of values and its current text. *)
Record Combobox := {
  cb_values : list str;
  cb_text : str
}.

Fixpoint index_of (x : str) (l : list str) : option nat :=
  match l with
  | [] => None
  | y :: l' =>
      if str_eqb x y then Some 0
      else match index_of x l' with
           | Some i => Some (S i)
           | None => None
           end
  end.

(** [combo.current()]: the index of the current text among the values,
    -1 when it is not one of them. *)
Definition cb_current (c : Combobox) : Z :=
  match index_of (cb_text c) (cb_values c) with
  | Some i => Z.of_nat i
  | None => (-1)%Z
  end.

(** The log widget: whether it is the virtual-scroll viewer (it then has
    [set_logs]), the records it shows, and the [mark_as_group] calls it
    received, oldest first. *)
Record LogTree := {
  is_virtual : bool;
  lt_logs : list LogInfo;
  lt_marks : list (nat * nat)
}.

Definition Path := str.

(** The [VRChatLogViewer] object: its state attributes followed by the
    widgets its methods read and write.  The status label and the update
    indicator carry no data and are left out. *)
Record Viewer := {
  current_logs : list str;
  notifications : list NotificationData;
  groups : dict GroupInfo;
  current_displayed_messages : list NotificationData;
  auto_update : bool;
  last_file_size : Z;
  current_log_file : option Path;
  collapse_long_lines : bool;
  collapse_repeated_tags : bool;
  group_names : dict str;
  (* widgets *)
  search_var : str;
  show_error : bool;
  show_warning : bool;
  show_debug : bool;
  show_info : bool;
  log_tree : LogTree;
  stats_label : str;
  group_combo : Combobox;
  msg_search_var : str;
  msg_tree : list (str * str);
  msg_stats_label : str
}.

(** A file as the viewer sees it: its size in bytes and what
    [FileUtils.read_file_with_encoding] returns for it ([None] when the
    read raises). *)
Record FileOnDisk := {
  st_size : Z;
  decoded : option str
}.

Definition FileSystem := Path -> option FileOnDisk.

(** File-system accesses, recorded in the order they are made. *)
Inductive IoEvent :=
| IoExists (p : Path)
| IoStat (p : Path)
| IoRead (p : Path).

(* ---- assignments to attributes and widgets ---- *)

Definition set_log_view (v : Viewer) (t : LogTree) (stats : str) : Viewer :=
  {| current_logs := current_logs v; notifications := notifications v;
     groups := groups v;
     current_displayed_messages := current_displayed_messages v;
     auto_update := auto_update v; last_file_size := last_file_size v;
     current_log_file := current_log_file v;
     collapse_long_lines := collapse_long_lines v;
     collapse_repeated_tags := collapse_repeated_tags v;
     group_names := group_names v; search_var := search_var v;
     show_error := show_error v; show_warning := show_warning v;
     show_debug := show_debug v; show_info := show_info v;
     log_tree := t; stats_label := stats;
     group_combo := group_combo v; msg_search_var := msg_search_var v;
     msg_tree := msg_tree v; msg_stats_label := msg_stats_label v |}.

Definition set_group_combo (v : Viewer) (c : Combobox) : Viewer :=
  {| current_logs := current_logs v; notifications := notifications v;
     groups := groups v;
     current_displayed_messages := current_displayed_messages v;
     auto_update := auto_update v; last_file_size := last_file_size v;
     current_log_file := current_log_file v;
     collapse_long_lines := collapse_long_lines v;
     collapse_repeated_tags := collapse_repeated_tags v;
     group_names := group_names v; search_var := search_var v;
     show_error := show_error v; show_warning := show_warning v;
     show_debug := show_debug v; show_info := show_info v;
     log_tree := log_tree v; stats_label := stats_label v;
     group_combo := c; msg_search_var := msg_search_var v;
     msg_tree := msg_tree v; msg_stats_label := msg_stats_label v |}.

Definition set_message_view (v : Viewer) (rows : list (str * str))
    (stats : str) (shown : list NotificationData) : Viewer :=
  {| current_logs := current_logs v; notifications := notifications v;
     groups := groups v;
     current_displayed_messages := shown;
     auto_update := auto_update v; last_file_size := last_file_size v;
     current_log_file := current_log_file v;
     collapse_long_lines := collapse_long_lines v;
     collapse_repeated_tags := collapse_repeated_tags v;
     group_names := group_names v; search_var := search_var v;
     show_error := show_error v; show_warning := show_warning v;
     show_debug := show_debug v; show_info := show_info v;
     log_tree := log_tree v; stats_label := stats_label v;
     group_combo := group_combo v; msg_search_var := msg_search_var v;
     msg_tree := rows; msg_stats_label := stats |}.

Definition set_current_log_file (v : Viewer) (p : Path) : Viewer :=
  {| current_logs := current_logs v; notifications := notifications v;
     groups := groups v;
     current_displayed_messages := current_displayed_messages v;
     auto_update := auto_update v; last_file_size := last_file_size v;
     current_log_file := Some p;
     collapse_long_lines := collapse_long_lines v;
     collapse_repeated_tags := collapse_repeated_tags v;
     group_names := group_names v; search_var := search_var v;
     show_error := show_error v; show_warning := show_warning v;
     show_debug := show_debug v; show_info := show_info v;
     log_tree := log_tree v; stats_label := stats_label v;
     group_combo := group_combo v; msg_search_var := msg_search_var v;
     msg_tree := msg_tree v; msg_stats_label := msg_stats_label v |}.

Definition set_loaded (v : Viewer) (size : Z) (logs : list str)
    (notifs : list NotificationData) (gs : dict GroupInfo) : Viewer :=
  {| current_logs := logs; notifications := notifs;
     groups := gs;
     current_displayed_messages := current_displayed_messages v;
     auto_update := auto_update v; last_file_size := size;
     current_log_file := current_log_file v;
     collapse_long_lines := collapse_long_lines v;
     collapse_repeated_tags := collapse_repeated_tags v;
     group_names := group_names v; search_var := search_var v;
     show_error := show_error v; show_warning := show_warning v;
     show_debug := show_debug v; show_info := show_info v;
     log_tree := log_tree v; stats_label := stats_label v;
     group_combo := group_combo v; msg_search_var := msg_search_var v;
     msg_tree := msg_tree v; msg_stats_label := msg_stats_label v |}.

(* ================================================================== *)
(** ** The filter and collapse pass: [apply_filter] *)

(** The local variables of [apply_filter] that live across iterations of
    its loop, plus the [mark_as_group] calls made so far. *)
Record FilterLoop := {
  filtered_logs : list LogInfo;
  filtered_count : nat;
  current_tag : option str;
  current_message_pattern : option str;
  tag_group_start : option nat;
  tag_group : list LogInfo;
  tag_count : nat;
  group_marks : list (nat * nat)
}.

(** Truth value of an [Optional[str]]: [None] and the empty string are
    false. *)
Definition truthy (o : option str) : bool :=
  match o with
  | Some (_ :: _) => true
  | _ => false
  end.

(** [a == b] on [Optional[str]] values. *)
Definition opt_str_eqb (a b : option str) : bool :=
  match a, b with
  | None, None => true
  | Some x, Some y => str_eqb x y
  | _, _ => false
  end.

(** The literal used for a run that has no tag. *)
Definition same_message_label : str :=
  [21516; 12376; 12513; 12483; 12475; 12540; 12472]%N.

(** [current_tag or '...'] *)
Definition tag_or_label (current_tag : option str) : str :=
  match current_tag with
  | Some (c :: t) => c :: t
  | _ => same_message_label
  end.

Definition header_prefix : str := [128193; 32; 91]%N.
Definition header_suffix : str := [32; 20214; 12398; 12525; 12464]%N.

(** The synthetic record heading a collapsed run. *)
Definition make_header (current_tag : option str) (tag_count : nat)
    : LogInfo :=
  {| timestamp := [];
     level := [];
     content := header_prefix ++ tag_or_label current_tag ++ [93; 32]%N
                ++ str_of_nat tag_count ++ header_suffix;
     tags := [u "group_header"] |}.

Definition loop_start : FilterLoop :=
  {| filtered_logs := []; filtered_count := 0;
     current_tag := None; current_message_pattern := None;
     tag_group_start := None; tag_group := []; tag_count := 0;
     group_marks := [] |}.

Section ApplyFilter.
Context {py : PyText} {ut : Utils}.

(** The search test of the loop: [search_text and search_text not in
    line.lower()] sends the line away. *)
Definition search_rejects (search_text line : str) : bool :=
  match search_text with
  | [] => false
  | _ :: _ => negb (contains (lower line) search_text)
  end.

(** The run's signature taken from a line and its parsed record. *)
Definition line_tag_of (line : str) : option str := search_tag line.

Definition content_clean_of (log_info : LogInfo) : str :=
  sub_digits (firstn 100 (content log_info)).

Definition is_same_group (st : FilterLoop) (line_tag : option str)
    (content_clean : str) : bool :=
  if truthy line_tag && opt_str_eqb line_tag (current_tag st) then true
  else if negb (truthy line_tag)
          && truthy (current_message_pattern st)
          && opt_str_eqb (Some content_clean) (current_message_pattern st)
  then true
  else false.

(** The same-group branch: the record joins the pending run. *)
Definition push_member (st : FilterLoop) (log_info : LogInfo) : FilterLoop :=
  {| filtered_logs := filtered_logs st;
     filtered_count := filtered_count st;
     current_tag := current_tag st;
     current_message_pattern := current_message_pattern st;
     tag_group_start := tag_group_start st;
     tag_group := tag_group st ++ [log_info];
     tag_count := tag_count st + 1;
     group_marks := group_marks st |}.

(** "Process the previous group" inside the loop: header, mark and
    members when the count reaches the threshold, the members alone when
    there are any. *)
Definition flush_in_loop (virtual : bool) (st : FilterLoop)
    : list LogInfo * list (nat * nat) :=
  if GROUP_COLLAPSE_THRESHOLD <=? tag_count st then
    let with_header :=
      filtered_logs st ++ [make_header (current_tag st) (tag_count st)] in
    let marks :=
      match virtual, tag_group_start st with
      | true, Some _ =>
          group_marks st ++
          [(length with_header - 1,
            length with_header - 1 + length (tag_group st))]
      | _, _ => group_marks st
      end in
    (with_header ++ tag_group st, marks)
  else
    match tag_group st with
    | _ :: _ => (filtered_logs st ++ tag_group st, group_marks st)
    | [] => (filtered_logs st, group_marks st)
    end.

(** The other branch: the pending run is emitted and a new one starts
    with this record. *)
Definition start_group (virtual : bool) (st : FilterLoop)
    (line_tag : option str) (content_clean : str) (log_info : LogInfo)
    : FilterLoop :=
  let '(logs, marks) := flush_in_loop virtual st in
  {| filtered_logs := logs;
     filtered_count := filtered_count st + 1;
     current_tag := line_tag;
     current_message_pattern :=
       if negb (truthy line_tag) then Some content_clean else None;
     tag_group_start := Some (length logs);
     tag_group := [log_info];
     tag_count := 1;
     group_marks := marks |}.

(** Collapsing switched off: the record goes straight to the output. *)
Definition emit_plain (st : FilterLoop) (log_info : LogInfo) : FilterLoop :=
  {| filtered_logs := filtered_logs st ++ [log_info];
     filtered_count := filtered_count st + 1;
     current_tag := current_tag st;
     current_message_pattern := current_message_pattern st;
     tag_group_start := tag_group_start st;
     tag_group := tag_group st;
     tag_count := tag_count st;
     group_marks := group_marks st |}.

(** The body of the loop for a line that passed both filters. *)
Definition accept_line (v : Viewer) (st : FilterLoop) (line : str)
    : FilterLoop :=
  let log_info := parse_log_line line (collapse_long_lines v) in
  if collapse_repeated_tags v then
    let line_tag := line_tag_of line in
    let content_clean := content_clean_of log_info in
    if is_same_group st line_tag content_clean
    then push_member st log_info
    else start_group (is_virtual (log_tree v)) st line_tag content_clean
           log_info
  else emit_plain st log_info.

Definition show_filters_of (v : Viewer) : ShowFilters :=
  {| sf_error := show_error v; sf_warning := show_warning v;
     sf_debug := show_debug v; sf_info := show_info v |}.

(** One iteration of [for idx, line in enumerate(self.current_logs)]. *)
Definition filter_step (v : Viewer) (search_text : str) (st : FilterLoop)
    (line : str) : FilterLoop :=
  if search_rejects search_text line then st
  else if negb (should_show_log line (show_filters_of v)) then st
  else accept_line v st line.

(** "Process the last group", after the loop. *)
Definition flush_last (v : Viewer) (st : FilterLoop)
    : list LogInfo * list (nat * nat) :=
  if collapse_repeated_tags v
     && (GROUP_COLLAPSE_THRESHOLD <=? tag_count st) then
    let logs :=
      (filtered_logs st ++ [make_header (current_tag st) (tag_count st)])
      ++ tag_group st in
    let marks :=
      match is_virtual (log_tree v), tag_group_start st with
      | true, Some _ =>
          group_marks st ++
          [(length logs - 1 - length (tag_group st), length logs - 1)]
      | _, _ => group_marks st
      end in
    (logs, marks)
  else
    match tag_group st with
    | _ :: _ => (filtered_logs st ++ tag_group st, group_marks st)
    | [] => (filtered_logs st, group_marks st)
    end.

(** The loop and the final flush: the list handed to the widget, the
    marks, and the count shown in the statistics label. *)
Definition filter_pass (v : Viewer)
    : list LogInfo * list (nat * nat) * nat :=
  let search_text := lower (search_var v) in
  let st := fold_left (filter_step v search_text) (current_logs v)
              loop_start in
  (flush_last v st, filtered_count st).

(** The records [apply_filter] puts on display. *)
Definition display_list (v : Viewer) : list LogInfo :=
  fst (fst (filter_pass v)).

Definition stats_text (shown total : nat) : str :=
  [34920; 31034; 58; 32]%N ++ str_of_nat shown ++ u " / "
  ++ str_of_nat total ++ [32; 34892]%N.

(** [apply_filter]: both kinds of widget end up showing [filtered_logs]
    (the virtual one through [set_logs], the tree view by deleting its
    rows and inserting one row per record). *)
Definition apply_filter (v : Viewer) : Viewer :=
  let '(logs, marks, shown) := filter_pass v in
  set_log_view v
    {| is_virtual := is_virtual (log_tree v);
       lt_logs := logs;
       lt_marks := marks |}
    (stats_text shown (length (current_logs v))).

End ApplyFilter.

(* ================================================================== *)
(** ** Group and message panels *)

(** The first entry of the group selector. *)
Definition all_groups_label : str :=
  [12377; 12409; 12390; 12398; 12464; 12523; 12540; 12503]%N.

(** The sort key of [update_group_list]: [len(x[1]['messages'])]. *)
Definition message_count (e : str * GroupInfo) : nat :=
  length (messages (snd e)).

(** [sorted(self.groups.items(), key=..., reverse=True)] *)
Definition sorted_groups (v : Viewer) : list (str * GroupInfo) :=
  sorted_reverse Nat.ltb message_count (groups v).

(** The selector entry of a group: its name and its message count. *)
Definition group_label (e : str * GroupInfo) : str :=
  name (snd e) ++ u " (" ++ str_of_nat (message_count e) ++ u ")".

Definition group_list_of (v : Viewer) : list str :=
  all_groups_label :: List.map group_label (sorted_groups v).

(** [update_group_list]: the selector gets the new list and keeps its
    text when that is still an entry, otherwise it shows entry 0. *)
Definition update_group_list (v : Viewer) : Viewer :=
  let group_list := group_list_of v in
  let current_selection := cb_text (group_combo v) in
  set_group_combo v
    {| cb_values := group_list;
       cb_text := if existsb (str_eqb current_selection) group_list
                  then current_selection
                  else nth 0 group_list [] |}.

(** "Select the messages to show", shared by [update_message_list] and
    [filter_messages]. *)
Definition selected_messages (v : Viewer) : list NotificationData :=
  let selected_group := cb_text (group_combo v) in
  if str_eqb selected_group all_groups_label
     || match selected_group with [] => true | _ :: _ => false end
  then notifications v
  else
    let group_index := (cb_current (group_combo v) - 1)%Z in
    if (0 <=? group_index)%Z
       && (group_index <? Z.of_nat (length (groups v)))%Z
    then
      match nth_error (dict_keys (groups v)) (Z.to_nat group_index) with
      | Some group_id =>
          match dict_get (groups v) group_id with
          | Some g => messages g
          | None => []
          end
      | None => []
      end
    else [].

(** [notif.message[:50].replace('\n', ' ')], with an ellipsis when the
    message is longer than 50 characters. *)
Definition preview (notif : NotificationData) : str :=
  replace_char 10%N 32%N (firstn 50 (message notif))
  ++ (if 50 <? length (message notif) then u "..." else []).

Definition message_rows (l : list NotificationData) : list (str * str) :=
  List.map (fun notif => (date notif, preview notif)) l.

Definition msg_label : str := [12513; 12483; 12475; 12540; 12472; 58; 32]%N.
Definition msg_unit : str := [32; 20214]%N.

(** [sorted(messages, key=lambda x: x.date, reverse=True)] *)
Definition sorted_by_date (l : list NotificationData)
    : list NotificationData :=
  sorted_reverse str_ltb date l.

Definition update_message_list (v : Viewer) : Viewer :=
  let sorted_messages := sorted_by_date (selected_messages v) in
  set_message_view v
    (message_rows sorted_messages)
    (msg_label ++ str_of_nat (length sorted_messages) ++ msg_unit)
    sorted_messages.

Section Panels.
Context {py : PyText}.

Definition filter_messages (v : Viewer) : Viewer :=
  let search_text := lower (msg_search_var v) in
  match search_text with
  | [] => update_message_list v
  | _ :: _ =>
      let messages := selected_messages v in
      let filtered_messages :=
        filter (fun notif => contains (lower (message notif)) search_text)
          messages in
      set_message_view v
        (message_rows filtered_messages)
        (msg_label ++ str_of_nat (length filtered_messages) ++ u " / "
         ++ str_of_nat (length messages) ++ msg_unit)
        filtered_messages
  end.

End Panels.

(* ================================================================== *)
(** ** Loading and tailing *)

Section Loading.
Context {py : PyText} {ut : Utils}.

(** [file_size_mb > LARGE_FILE_THRESHOLD_MB] with
    [file_size_mb = file_size / (1024 * 1024)]: dividing by a power of
    two is exact in binary floating point, so the test is the integer
    comparison below. *)
Definition is_large_file (file_size : Z) : bool :=
  (LARGE_FILE_THRESHOLD_MB * 1048576 <? file_size)%Z.

(** [load_log_file(log_file, append)].  [response] is the user's answer
    to the large-file question, asked only on a full load of a large
    file.  Every exception ends in the handler at the bottom of the
    method, which reports it and leaves the attributes as they are at
    that point. *)
Definition load_log_file (fs : FileSystem) (response : bool) (v : Viewer)
    (log_file : Path) (append : bool) : Viewer * list IoEvent :=
  let v0 := set_current_log_file v log_file in
  match fs log_file with
  | None => (v0, [IoStat log_file])
  | Some f =>
      let file_size := st_size f in
      if is_large_file file_size && negb append && negb response
      then (v0, [IoStat log_file])
      else
        match decoded f with
        | None => (v0, [IoStat log_file; IoRead log_file])
        | Some content =>
            let lines := splitlines_keepends content in
            let logs :=
              if append then
                let new_lines := skipn (length (current_logs v0)) lines in
                current_logs v0 ++ new_lines
              else lines in
            let new_content :=
              if append then join [10%N] (skipn (length logs) lines)
              else content in
            let new_notifications := parse_notifications new_content in
            let notifs :=
              if append then notifications v0 ++ new_notifications
              else new_notifications in
            let gs :=
              organize_notifications_by_group notifs (group_names v0) in
            let v1 := set_loaded v0 file_size logs notifs gs in
            let v2 := if append then v1 else apply_filter v1 in
            let v3 := update_group_list v2 in
            let v4 := if append then v3 else update_message_list v3 in
            (v4, [IoStat log_file; IoRead log_file])
        end
  end.

(** [check_for_updates], one firing of the timer.  Re-arming the timer
    at the end touches no attribute and is not represented. *)
Definition check_for_updates (fs : FileSystem) (v : Viewer)
    : Viewer * list IoEvent :=
  if negb (auto_update v) then (v, [])
  else
    match current_log_file v with
    | None => (v, [])
    | Some p =>
        match fs p with
        | None => (v, [IoExists p])
        | Some f =>
            let current_size := st_size f in
            if negb (current_size =? last_file_size v)%Z then
              let '(v', io) := load_log_file fs true v p true in
              (v', [IoExists p; IoStat p] ++ io)
            else (v, [IoExists p; IoStat p])
        end
    end.

(** A full load as [load_logs] and [refresh_messages] request it. *)
Definition full_reload (fs : FileSystem) (response : bool) (v : Viewer)
    (log_file : Path) : Viewer * list IoEvent :=
  load_log_file fs response v log_file false.

End Loading.

(* ================================================================== *)
(** ** Notions used to state the properties *)

(** A record is a group header when it carries the tag the collapser
    gives its synthetic records. *)
Definition is_group_header (r : LogInfo) : bool :=
  existsb (str_eqb (u "group_header")) (tags r).

(** Any other record. *)
Definition is_plain (r : LogInfo) : bool := negb (is_group_header r).

Definition is_ascii_digit (c : char) : bool :=
  (N.leb 48 c && N.leb c 57)%N.

Fixpoint take_while (p : char -> bool) (s : str) : str :=
  match s with
  | [] => []
  | c :: s' => if p c then c :: take_while p s' else []
  end.

Fixpoint strip_prefix (p s : str) : option str :=
  match p, s with
  | [], _ => Some s
  | _ :: _, [] => None
  | x :: p', y :: s' => if char_eqb x y then strip_prefix p' s' else None
  end.

(** The number written by a string of decimal digits. *)
Definition nat_of_digits (ds : str) : nat :=
  fold_left (fun acc c => 10 * acc + (N.to_nat c - 48)) ds 0.

(** The count a header states: the decimal number that stands right
    before the closing words of its content. *)
Definition stated_count (h : LogInfo) : option nat :=
  match strip_prefix (rev header_suffix) (rev (content h)) with
  | None => None
  | Some r =>
      match take_while is_ascii_digit r with
      | [] => None
      | d :: ds => Some (nat_of_digits (rev (d :: ds)))
      end
  end.

(** A display list in which every header is followed by as many records
    as it states, none of them a header. *)
Inductive WellGrouped : list LogInfo -> Prop :=
| wg_nil : WellGrouped []
| wg_plain r rest :
    is_group_header r = false ->
    WellGrouped rest ->
    WellGrouped (r :: rest)
| wg_group h members rest :
    is_group_header h = true ->
    stated_count h = Some (length members) ->
    Forall (fun m => is_group_header m = false) members ->
    WellGrouped rest ->
    WellGrouped (h :: members ++ rest).

(** A range handed to [mark_as_group] fits a list of records when it
    starts on a header, ends inside the list, and spans exactly as many
    records after the header as the header states, none of them a
    header. *)
Definition mark_fits (logs : list LogInfo) (m : nat * nat) : Prop :=
  exists h,
    nth_error logs (fst m) = Some h
    /\ is_group_header h = true
    /\ stated_count h = Some (snd m - fst m)
    /\ fst m <= snd m < length logs
    /\ Forall (fun r => is_group_header r = false)
         (firstn (snd m - fst m) (skipn (S (fst m)) logs)).

(** What every iteration of the loop maintains. *)
Definition loop_invariant (st : FilterLoop) : Prop :=
  tag_count st = length (tag_group st)
  /\ Forall (fun r => is_group_header r = false) (tag_group st)
  /\ Forall (mark_fits (filtered_logs st)) (group_marks st).

Section Notions.
Context {py : PyText} {ut : Utils}.

(** The two tests a line must pass to reach the collapser. *)
Definition keeps (v : Viewer) (line : str) : bool :=
  negb (search_rejects (lower (search_var v)) line)
  && should_show_log line (show_filters_of v).

(** The filtered stream. *)
Definition filtered_lines (v : Viewer) : list str :=
  filter (keeps v) (current_logs v).

Definition parsed (v : Viewer) (line : str) : LogInfo :=
  parse_log_line line (collapse_long_lines v).

(** The collapser alone: the loop body without the two filter tests,
    over the given lines, and the final flush. *)
Definition collapse_pass (v : Viewer) (lines : list str) : list LogInfo :=
  fst (flush_last v (fold_left (accept_line v) lines loop_start)).

(** A pending run as the loop emits it. *)
Definition emit_run (tag : option str) (members : list LogInfo)
    : list LogInfo :=
  if GROUP_COLLAPSE_THRESHOLD <=? length members
  then make_header tag (length members) :: members
  else members.

(** The signature of a line as the specification words it: the bracketed
    tag when there is one, otherwise the digit-normalised content key. *)
Inductive Signature :=
| SigTag (t : str)
| SigKey (k : str).

Definition signature_of (v : Viewer) (line : str) : Signature :=
  match line_tag_of line with
  | Some t => SigTag t
  | None => SigKey (content_clean_of (parsed v line))
  end.

Definition signature_eqb (a b : Signature) : bool :=
  match a, b with
  | SigTag x, SigTag y => str_eqb x y
  | SigKey x, SigKey y => str_eqb x y
  | _, _ => false
  end.

(** The loop's own test: line [b] joins a run whose signature was set by
    line [a].  Two tagged lines join on equal tags, two untagged lines on
    equal keys provided the key is not empty. *)
Definition joins (v : Viewer) (a b : str) : bool :=
  match signature_of v a, signature_of v b with
  | SigTag x, SigTag y => str_eqb x y
  | SigKey x, SigKey y =>
      match x with [] => false | _ :: _ => str_eqb x y end
  | _, _ => false
  end.

(** [is_same_group] as a function of the two loop variables it reads. *)
Definition same_group_test (cur_tag cur_pat line_tag : option str)
    (clean : str) : bool :=
  (truthy line_tag && opt_str_eqb line_tag cur_tag)
  || (negb (truthy line_tag) && truthy cur_pat
      && opt_str_eqb (Some clean) cur_pat).

(** The values [current_tag] and [current_message_pattern] take when a
    run starts with [line]. *)
Definition run_vars (v : Viewer) (line : str) : option str * option str :=
  (line_tag_of line,
   if negb (truthy (line_tag_of line))
   then Some (content_clean_of (parsed v line))
   else None).

(** The two variables never hold a tag and a pattern at once. *)
Definition coherent (t p : option str) : Prop := t = None \/ p = None.

(** What the loop and the final flush add to the output, for a pending
    run [group] with variables [cur_tag] and [cur_pat] and lines [ls]
    still to come. *)
Fixpoint runs_out (v : Viewer) (cur_tag cur_pat : option str)
    (group : list LogInfo) (ls : list str) : list LogInfo :=
  match ls with
  | [] => emit_run cur_tag group
  | line :: ls' =>
      let r := parsed v line in
      let line_tag := line_tag_of line in
      let clean := content_clean_of r in
      if same_group_test cur_tag cur_pat line_tag clean
      then runs_out v cur_tag cur_pat (group ++ [r]) ls'
      else emit_run cur_tag group
           ++ runs_out v line_tag
                (if negb (truthy line_tag) then Some clean else None)
                [r] ls'
  end.

(** The runs behind [runs_out]: each pending run with the tag variable
    it is emitted under, in order. *)
Fixpoint run_blocks (v : Viewer) (cur_tag cur_pat : option str)
    (group : list LogInfo) (ls : list str)
    : list (option str * list LogInfo) :=
  match ls with
  | [] => [(cur_tag, group)]
  | line :: ls' =>
      let r := parsed v line in
      let line_tag := line_tag_of line in
      let clean := content_clean_of r in
      if same_group_test cur_tag cur_pat line_tag clean
      then run_blocks v cur_tag cur_pat (group ++ [r]) ls'
      else (cur_tag, group)
           :: run_blocks v line_tag
                (if negb (truthy line_tag) then Some clean else None)
                [r] ls'
  end.

(** The runs of the filtered stream of a viewer. *)
Definition runs_of (v : Viewer) : list (option str * list LogInfo) :=
  run_blocks v None None [] (filtered_lines v).

(** The viewer holding the lines [ls] instead of its own. *)
Definition with_lines (v : Viewer) (ls : list str) : Viewer :=
  set_loaded v (last_file_size v) ls (notifications v) (groups v).

(** The tag shown in the header of a run that starts with [line]. *)
Definition run_tag (line : str) : option str := line_tag_of line.

(** A run as it goes out: under a header when it reaches the threshold,
    bare otherwise. *)
Definition emitted_run (first : str) (members : list LogInfo)
    : list LogInfo :=
  (if GROUP_COLLAPSE_THRESHOLD <=? length members
   then [make_header (run_tag first) (length members)]
   else [])
  ++ members.

(** The statement of the specification about runs, signatures being
    compared for plain equality: a maximal run of the filtered stream
    goes out as one header and its members when it reaches the
    threshold, as its members alone otherwise. *)
Definition run_emission_by_signature (v : Viewer) : Prop :=
  forall pre first rest post,
    collapse_repeated_tags v = true ->
    1 <= GROUP_COLLAPSE_THRESHOLD ->
    filtered_lines v = pre ++ (first :: rest) ++ post ->
    Forall (fun l => signature_eqb (signature_of v first)
                       (signature_of v l) = true) rest ->
    (pre = [] \/
     signature_eqb (signature_of v (last pre first))
       (signature_of v first) = false) ->
    (post = [] \/
     signature_eqb (signature_of v first)
       (signature_of v (hd first post)) = false) ->
    lt_logs (log_tree (apply_filter v)) =
      collapse_pass v pre
      ++ emitted_run first (List.map (parsed v) (first :: rest))
      ++ collapse_pass v post.

(** The statement of the specification about a shrunken file: the tail
    check answers it with a full reload. *)
Definition shrink_triggers_full_reload (fs : FileSystem) (v : Viewer)
    : Prop :=
  forall p f,
    auto_update v = true ->
    current_log_file v = Some p ->
    fs p = Some f ->
    (st_size f < last_file_size v)%Z ->
    fst (check_for_updates fs v) = fst (full_reload fs true v p).

(** The statement of the specification about an incremental read: what
    it adds to [notifications] is what the extractor finds in the text
    appended since the previous read. *)
Definition append_extracts_suffix (fs : FileSystem) (v : Viewer)
    (p : Path) (old_text appended : str) : Prop :=
  forall f,
    fs p = Some f ->
    decoded f = Some (old_text ++ appended) ->
    current_logs v = splitlines_keepends old_text ->
    notifications (fst (load_log_file fs true v p true)) =
      notifications v ++ parse_notifications appended.

End Notions.

(* ================================================================== *)
(** ** Further operations of the viewer *)

(** [d[k] = x]: the value of an existing key is replaced where it
    stands, a new key goes to the end. *)
Fixpoint dict_set V (d : dict V) (k : str) (x : V) : dict V :=
  match d with
  | [] => [(k, x)]
  | (k', y) :: d' =>
      if str_eqb k k' then (k', x) :: d' else (k', y) :: dict_set d' k x
  end.

Definition set_group_names (v : Viewer) (gs : dict GroupInfo)
    (names : dict str) : Viewer :=
  {| current_logs := current_logs v; notifications := notifications v;
     groups := gs;
     current_displayed_messages := current_displayed_messages v;
     auto_update := auto_update v; last_file_size := last_file_size v;
     current_log_file := current_log_file v;
     collapse_long_lines := collapse_long_lines v;
     collapse_repeated_tags := collapse_repeated_tags v;
     group_names := names; search_var := search_var v;
     show_error := show_error v; show_warning := show_warning v;
     show_debug := show_debug v; show_info := show_info v;
     log_tree := log_tree v; stats_label := stats_label v;
     group_combo := group_combo v; msg_search_var := msg_search_var v;
     msg_tree := msg_tree v; msg_stats_label := msg_stats_label v |}.

Definition set_auto_update (v : Viewer) (b : bool) : Viewer :=
  {| current_logs := current_logs v; notifications := notifications v;
     groups := groups v;
     current_displayed_messages := current_displayed_messages v;
     auto_update := b; last_file_size := last_file_size v;
     current_log_file := current_log_file v;
     collapse_long_lines := collapse_long_lines v;
     collapse_repeated_tags := collapse_repeated_tags v;
     group_names := group_names v; search_var := search_var v;
     show_error := show_error v; show_warning := show_warning v;
     show_debug := show_debug v; show_info := show_info v;
     log_tree := log_tree v; stats_label := stats_label v;
     group_combo := group_combo v; msg_search_var := msg_search_var v;
     msg_tree := msg_tree v; msg_stats_label := msg_stats_label v |}.

(** What the user can change on the input widgets: the two search
    fields, the level boxes, the two collapse options and the text of
    the group selector. *)
Definition set_inputs (v : Viewer) (search : str) (levels : ShowFilters)
    (long_lines repeated_tags : bool) (group_text msg_search : str)
    : Viewer :=
  {| current_logs := current_logs v; notifications := notifications v;
     groups := groups v;
     current_displayed_messages := current_displayed_messages v;
     auto_update := auto_update v; last_file_size := last_file_size v;
     current_log_file := current_log_file v;
     collapse_long_lines := long_lines;
     collapse_repeated_tags := repeated_tags;
     group_names := group_names v; search_var := search;
     show_error := sf_error levels; show_warning := sf_warning levels;
     show_debug := sf_debug levels; show_info := sf_info levels;
     log_tree := log_tree v; stats_label := stats_label v;
     group_combo := {| cb_values := cb_values (group_combo v);
                       cb_text := group_text |};
     msg_search_var := msg_search;
     msg_tree := msg_tree v; msg_stats_label := msg_stats_label v |}.

(** [edit_group_name].  [answer] is what the name dialog returns, [None]
    when it is cancelled.  The second component is the mapping handed to
    [save_group_names] for writing, [None] when nothing is saved. *)
Definition edit_group_name (answer : option str) (v : Viewer)
    : Viewer * option (dict str) :=
  let selection := cb_text (group_combo v) in
  if str_eqb selection all_groups_label
     || match selection with [] => true | _ :: _ => false end
  then (v, None)
  else
    let group_index := (cb_current (group_combo v) - 1)%Z in
    if (group_index <? 0)%Z
       || (Z.of_nat (length (groups v)) <=? group_index)%Z
    then (v, None)
    else
      match nth_error (dict_keys (groups v)) (Z.to_nat group_index) with
      | None => (v, None)
      | Some group_id =>
          match dict_get (groups v) group_id with
          | None => (v, None)
          | Some g =>
              let current_name := name g in
              if truthy answer
                 && negb (opt_str_eqb answer (Some current_name))
              then
                let new_name :=
                  match answer with Some s => s | None => [] end in
                let names := dict_set (group_names v) group_id new_name in
                let gs :=
                  dict_set (groups v) group_id
                    {| name := new_name; messages := messages g |} in
                (update_group_list (set_group_names v gs names), Some names)
              else (v, None)
          end
      end.

(** [on_group_selected] *)
Definition on_group_selected (v : Viewer) : Viewer := update_message_list v.

(** The message detail widget: its text and whether it is in the
    editable state. *)
Record DetailPane := {
  pane_text : str;
  pane_editable : bool
}.

Definition detail_text (notif : NotificationData) (group_name : str)
    : str :=
  [21463; 20449; 26085; 26178; 58; 32]%N ++ date notif ++ [10%N]
  ++ [20316; 25104; 26085; 26178; 58; 32]%N ++ created_at notif ++ [10%N]
  ++ [12464; 12523; 12540; 12503; 58; 32]%N ++ group_name ++ [10%N]
  ++ [73; 68; 58; 32]%N ++ id notif ++ [10%N]
  ++ [10; 12513; 12483; 12475; 12540; 12472; 58; 10]%N ++ message notif.

(** [on_message_select].  [selection] lists the selected rows of the
    message tree by position: the row at position [i] was inserted with
    iid [str(i)], which [int] reads back as [i].  A missing group raises
    [KeyError] after the widget was made editable and emptied; the
    handler only reports it. *)
Definition on_message_select (v : Viewer) (selection : list nat)
    (pane : DetailPane) : DetailPane :=
  match selection with
  | [] => pane
  | item_id :: _ =>
      match nth_error (current_displayed_messages v) item_id with
      | None => pane
      | Some notif =>
          match dict_get (groups v) (group_id notif) with
          | None => {| pane_text := []; pane_editable := true |}
          | Some g =>
              {| pane_text := detail_text notif (name g);
                 pane_editable := false |}
          end
      end
  end.

(** The line [copy_selected_logs] makes of a record: its three columns
    separated by tabs. *)
Definition log_row (log : LogInfo) : str :=
  timestamp log ++ [9%N] ++ level log ++ [9%N] ++ content log.

(** [copy_selected_logs]: what the clipboard holds afterwards, given the
    records selected in the log widget.  Both kinds of widget yield the
    selected records in order, and a row always has its three values. *)
Definition copy_selected_logs (selected : list LogInfo) (clipboard : str)
    : str :=
  match List.map log_row selected with
  | [] => clipboard
  | copied_text => join [10%N] copied_text
  end.

(** What one call of a method, or one change of the input widgets, does
    to the viewer. *)
Inductive Command :=
| LoadFile (fs : FileSystem) (response : bool) (p : Path)
| Refresh (fs : FileSystem) (response : bool)
| ToggleAutoUpdate (fs : FileSystem) (checked : bool)
| TimerTick (fs : FileSystem)
| ApplyFilter
| GroupSelected
| FilterMessages
| EditGroupName (answer : option str)
| UserInput (search : str) (levels : ShowFilters)
    (long_lines repeated_tags : bool) (group_text msg_search : str).

Section Commands.
Context {py : PyText} {ut : Utils}.

(** [refresh_messages] *)
Definition refresh_messages (fs : FileSystem) (response : bool)
    (v : Viewer) : Viewer * list IoEvent :=
  match current_log_file v with
  | Some p => load_log_file fs response v p false
  | None => (v, [])
  end.

(** [toggle_auto_update], [checked] being the value of the check box. *)
Definition toggle_auto_update (fs : FileSystem) (checked : bool)
    (v : Viewer) : Viewer * list IoEvent :=
  if checked then check_for_updates fs (set_auto_update v true)
  else (set_auto_update v false, []).

Definition run_command (c : Command) (v : Viewer) : Viewer :=
  match c with
  | LoadFile fs response p => fst (load_log_file fs response v p false)
  | Refresh fs response => fst (refresh_messages fs response v)
  | ToggleAutoUpdate fs checked => fst (toggle_auto_update fs checked v)
  | TimerTick fs => fst (check_for_updates fs v)
  | ApplyFilter => apply_filter v
  | GroupSelected => on_group_selected v
  | FilterMessages => filter_messages v
  | EditGroupName answer => fst (edit_group_name answer v)
  | UserInput search levels long_lines repeated_tags group_text msg_search =>
      set_inputs v search levels long_lines repeated_tags group_text
        msg_search
  end.

Definition run_commands (cs : list Command) (v : Viewer) : Viewer :=
  fold_left (fun st c => run_command c st) cs v.

(** A run of timer ticks, each seeing the file system of its moment. *)
Definition tail_checks (snapshots : list FileSystem) (v : Viewer)
    : Viewer :=
  fold_left (fun st fs => fst (check_for_updates fs st)) snapshots v.

End Commands.

(** What holds of a viewer whatever was done to it: the rows of the
    message tree are those of the notifications a click is resolved
    against, the log widget shows a well-grouped list, and every range
    marked on it fits. *)
Definition viewer_invariant (v : Viewer) : Prop :=
  msg_tree v = message_rows (current_displayed_messages v)
  /\ WellGrouped (lt_logs (log_tree v))
  /\ Forall (mark_fits (lt_logs (log_tree v))) (lt_marks (log_tree v)).

(** A text that ends on a line boundary which the text that follows
    cannot extend (a CR is not followed by a LF). *)
Definition ends_on_boundary (old appended : str) : Prop :=
  old = []
  \/ (is_linebreak (last old 0%N) = true
      /\ (last old 0%N = 13%N -> hd_error appended <> Some 10%N)).

(* ================================================================== *)
(** ** A concrete instance *)

(** Concrete tables and helpers on which the definitions above can be
    run: the character tables restricted to ASCII, where they agree with
    Python's, and small stand-ins for the helpers of utils.py. *)
Module Fixture.

Definition ascii_lower (c : char) : char :=
  if (N.leb 65 c && N.leb c 90)%N then (c + 32)%N else c.

Definition ascii_word (c : char) : bool :=
  ((N.leb 48 c && N.leb c 57) || (N.leb 65 c && N.leb c 90)
   || (N.leb 97 c && N.leb c 122) || N.eqb c 95)%N.

Definition ascii_space (c : char) : bool :=
  ((N.leb 9 c && N.leb c 13) || (N.leb 28 c && N.leb c 32))%N.

#[export] Instance ascii_text : PyText :=
  {| lower := List.map ascii_lower;
     re_word := ascii_word;
     re_space := ascii_space;
     re_digit := is_ascii_digit |}.

(** [s.rstrip()] for the ASCII white space. *)
Definition rstrip (s : str) : str :=
  rev (let fix drop (r : str) : str :=
         match r with
         | c :: r' => if ascii_space c then drop r' else r
         | [] => []
         end in drop (rev s)).

(** Modelled from the spec: [LogParser.parse_log_line] of utils.py,
    which is not among the sources.  The stand-in recognises no
    timestamp, so that every line falls under "lines with no recognizable
    timestamp still produce a record with an empty timestamp and full
    content"; the line terminator is not part of the content (the spec's
    scenario has content "boom" for a line ending in a newline); with
    truncation enabled, content over 200 characters is cut there and
    given an elision suffix. *)
Definition parse_line (line : str) (collapse_long : bool) : LogInfo :=
  let body := rstrip line in
  {| timestamp := [];
     level := [];
     content := if collapse_long && (200 <? length body)
                then firstn 200 body ++ u "..."
                else body;
     tags := [] |}.

(** Modelled from the spec: [LogParser.should_show_log] of utils.py.
    The level of a line is the first level keyword found in it, case
    ignored; a line without keyword counts as information. *)
Definition show_line (line : str) (f : ShowFilters) : bool :=
  let l := lower line in
  if contains l (u "error") then sf_error f
  else if contains l (u "warning") then sf_warning f
  else if contains l (u "debug") then sf_debug f
  else sf_info f.

(** Modelled from the spec: [NotificationParser.parse_notifications] of
    utils.py.  The stand-in takes as marker an at-sign opening a line:
    every such line is one notification, its message being the rest of
    the line; the other fields take their default, the empty string. *)
Definition extract (text : str) : list NotificationData :=
  flat_map
    (fun line =>
       match line with
       | 64%N :: body =>
           [{| id := []; group_id := []; date := []; created_at := [];
               message := rstrip body |}]
       | _ => []
       end)
    (splitlines_keepends text).

Fixpoint add_to_group (names : dict str) (n : NotificationData)
    (gs : dict GroupInfo) : dict GroupInfo :=
  match gs with
  | [] =>
      [(group_id n,
        {| name := match dict_get names (group_id n) with
                   | Some x => x
                   | None => group_id n
                   end;
           messages := [n] |})]
  | (k, g) :: gs' =>
      if str_eqb k (group_id n)
      then (k, {| name := name g; messages := messages g ++ [n] |}) :: gs'
      else (k, g) :: add_to_group names n gs'
  end.

(** Modelled from the spec: [GroupUtils.organize_notifications_by_group]
    of utils.py.  Notifications are grouped by [group_id] in order of
    first appearance, each group keeping file order; the display name is
    the override when there is one, the [group_id] otherwise. *)
Definition organize (ns : list NotificationData) (names : dict str)
    : dict GroupInfo :=
  fold_left (fun gs n => add_to_group names n gs) ns [].

(** The constants take the defaults the spec mentions: runs of three
    collapse, files over ten megabytes ask for confirmation. *)
#[export] Instance utils : Utils :=
  {| parse_log_line := parse_line;
     should_show_log := show_line;
     parse_notifications := extract;
     organize_notifications_by_group := organize;
     GROUP_COLLAPSE_THRESHOLD := 3;
     LARGE_FILE_THRESHOLD_MB := 10 |}.

(** A freshly constructed viewer: nothing loaded, every level shown,
    both collapse options on, as [__init__] sets them; [virtual] tells
    which log widget was built. *)
Definition fresh (virtual : bool) : Viewer :=
  {| current_logs := []; notifications := []; groups := [];
     current_displayed_messages := [];
     auto_update := false; last_file_size := 0;
     current_log_file := None;
     collapse_long_lines := true; collapse_repeated_tags := true;
     group_names := [];
     search_var := [];
     show_error := true; show_warning := true;
     show_debug := true; show_info := true;
     log_tree := {| is_virtual := virtual; lt_logs := []; lt_marks := [] |};
     stats_label := [];
     group_combo := {| cb_values := []; cb_text := [] |};
     msg_search_var := [];
     msg_tree := []; msg_stats_label := [] |}.

(** The fresh viewer holding the given lines. *)
Definition with_logs (lines : list str) : Viewer :=
  set_loaded (fresh true) 0 lines [] [].

Definition with_search (v : Viewer) (text : str) : Viewer :=
  {| current_logs := current_logs v; notifications := notifications v;
     groups := groups v;
     current_displayed_messages := current_displayed_messages v;
     auto_update := auto_update v; last_file_size := last_file_size v;
     current_log_file := current_log_file v;
     collapse_long_lines := collapse_long_lines v;
     collapse_repeated_tags := collapse_repeated_tags v;
     group_names := group_names v; search_var := text;
     show_error := show_error v; show_warning := show_warning v;
     show_debug := show_debug v; show_info := show_info v;
     log_tree := log_tree v; stats_label := stats_label v;
     group_combo := group_combo v; msg_search_var := msg_search_var v;
     msg_tree := msg_tree v; msg_stats_label := msg_stats_label v |}.

Definition with_msg_search (v : Viewer) (text : str) : Viewer :=
  {| current_logs := current_logs v; notifications := notifications v;
     groups := groups v;
     current_displayed_messages := current_displayed_messages v;
     auto_update := auto_update v; last_file_size := last_file_size v;
     current_log_file := current_log_file v;
     collapse_long_lines := collapse_long_lines v;
     collapse_repeated_tags := collapse_repeated_tags v;
     group_names := group_names v; search_var := search_var v;
     show_error := show_error v; show_warning := show_warning v;
     show_debug := show_debug v; show_info := show_info v;
     log_tree := log_tree v; stats_label := stats_label v;
     group_combo := group_combo v; msg_search_var := text;
     msg_tree := msg_tree v; msg_stats_label := msg_stats_label v |}.

Definition with_auto_update (v : Viewer) : Viewer :=
  {| current_logs := current_logs v; notifications := notifications v;
     groups := groups v;
     current_displayed_messages := current_displayed_messages v;
     auto_update := true; last_file_size := last_file_size v;
     current_log_file := current_log_file v;
     collapse_long_lines := collapse_long_lines v;
     collapse_repeated_tags := collapse_repeated_tags v;
     group_names := group_names v; search_var := search_var v;
     show_error := show_error v; show_warning := show_warning v;
     show_debug := show_debug v; show_info := show_info v;
     log_tree := log_tree v; stats_label := stats_label v;
     group_combo := group_combo v; msg_search_var := msg_search_var v;
     msg_tree := msg_tree v; msg_stats_label := msg_stats_label v |}.

(** A file system holding one file, [output_log.txt]. *)
Definition the_log : Path := u "output_log.txt".

Definition one_file (size : Z) (text : str) : FileSystem :=
  fun p =>
    if str_eqb p the_log
    then Some {| st_size := size; decoded := Some text |}
    else None.

Definition lf : str := [10%N].

Definition network_line : str := u "[Network] ping 1" ++ lf.
Definition other_line : str := u "ready" ++ lf.

(** A line whose only match for the search text lies beyond the point
    where the parser cuts the content. *)
Definition long_line : str := repeat 97%N 210 ++ u " needle" ++ lf.

(** A viewer that received two notifications with the same text, the
    older one first. *)
Definition note (when what : string) : NotificationData :=
  {| id := []; group_id := []; date := u when; created_at := [];
     message := u what |}.

Definition inbox : Viewer :=
  set_loaded (fresh true) 0 []
    [note "2024.01.01 10:00:00" "hello"; note "2024.01.02 10:00:00" "hello"]
    [].

(** A log of one line, and the same log after a notification line was
    appended to it. *)
Definition short_text : str := u "started" ++ lf.
Definition grown_text : str := short_text ++ u "@hello" ++ lf.

(** The viewer after it loaded the short log, auto-update switched on. *)
Definition loaded_short : Viewer :=
  with_auto_update
    (fst (load_log_file (one_file 8 short_text) true (fresh true) the_log
            false)).

(** A log of three lines, and the one-line file that replaces it when
    the log is rotated. *)
Definition long_text : str := u "one" ++ lf ++ u "two" ++ lf ++ u "three" ++ lf.
Definition rotated_text : str := u "new" ++ lf.

Definition loaded_long : Viewer :=
  with_auto_update
    (fst (load_log_file (one_file 14 long_text) true (fresh true) the_log
            false)).

(** Three notifications of two groups, the group seen first having
    fewer messages than the other, and the viewer holding them with its
    group selector filled in. *)
Definition note_in (gid when what : string) : NotificationData :=
  {| id := []; group_id := u gid; date := u when; created_at := [];
     message := u what |}.

Definition club_notes : list NotificationData :=
  [note_in "g1" "2024.01.01" "first"; note_in "g2" "2024.01.02" "second";
   note_in "g2" "2024.01.03" "third"].

Definition clubs : Viewer :=
  update_group_list
    (set_loaded (fresh true) 0 [] club_notes (organize club_notes [])).

Definition all_levels : ShowFilters :=
  {| sf_error := true; sf_warning := true; sf_debug := true;
     sf_info := true |}.

(** The same viewer after the user picked an entry of the selector. *)
Definition clubs_selecting (text : str) : Viewer :=
  set_inputs clubs [] all_levels true true text [].

(** The viewer holding the given lines with collapsing switched off. *)
Definition uncollapsed (lines : list str) : Viewer :=
  set_inputs (with_logs lines) [] all_levels true false [] [].

(** Two untagged lines that differ in a number. *)
Definition retry_17 : str := u "retry 17 failed" ++ lf.
Definition retry_42 : str := u "retry 42 failed" ++ lf.




(** The club viewer showing the messages of all groups. *)
Definition clubs_listed : Viewer :=
  update_message_list (clubs_selecting all_groups_label).

Definition empty_pane : DetailPane :=
  {| pane_text := []; pane_editable := false |}.

End Fixture.

(* ================================================================== *)
(** * Properties *)

Unset Implicit Arguments.

(** ** Text *)

Lemma str_eqb_eq (a b : str) : str_eqb a b = true <-> a = b.
Proof.
  revert b; induction a as [|x a IH]; intros [|y b]; simpl;
    try (split; [discriminate | congruence]); try tauto.
  unfold char_eqb. rewrite andb_true_iff, N.eqb_eq, IH.
  split; [intros [-> ->]; reflexivity | intros E; inversion E; auto].
Qed.

Lemma str_eqb_refl (a : str) : str_eqb a a = true.
Proof. apply str_eqb_eq; reflexivity. Qed.

Lemma strip_prefix_app (p s : str) : strip_prefix p (p ++ s) = Some s.
Proof.
  induction p as [|x p IH]; simpl.
  - destruct s; reflexivity.
  - unfold char_eqb. rewrite N.eqb_refl. exact IH.
Qed.

Lemma take_while_app (p : char -> bool) (a : str) (c : char) (b : str) :
  Forall (fun x => p x = true) a -> p c = false ->
  take_while p (a ++ c :: b) = a.
Proof.
  intros Ha Hc. induction Ha as [|x a Hx _ IH]; simpl.
  - rewrite Hc. reflexivity.
  - rewrite Hx, IH. reflexivity.
Qed.

Lemma uint_codes_digits (d : Decimal.uint) :
  Forall (fun c => is_ascii_digit c = true) (uint_codes d).
Proof. induction d; simpl; constructor; auto. Qed.

Lemma uint_codes_nil (d : Decimal.uint) : uint_codes d = [] -> d = Decimal.Nil.
Proof. destruct d; simpl; congruence. Qed.

Lemma nat_of_digits_acc (d : Decimal.uint) (acc : nat) :
  fold_left (fun a c => 10 * a + (N.to_nat c - 48)) (uint_codes d) acc
  = Nat.of_uint_acc d acc.
Proof.
  revert acc.
  induction d; intros acc; simpl uint_codes; simpl fold_left;
    simpl Nat.of_uint_acc; rewrite ?IHd, ?Nat.tail_mul_spec;
    try reflexivity; f_equal; cbn [N.to_nat Pos.to_nat]; simpl; lia.
Qed.

(** Reading back the decimal rendering of a number gives the number. *)
Lemma nat_of_digits_str_of_nat (n : nat) : nat_of_digits (str_of_nat n) = n.
Proof.
  unfold nat_of_digits, str_of_nat. rewrite nat_of_digits_acc.
  apply Unsigned.of_to.
Qed.

Lemma str_of_nat_nonempty (n : nat) : str_of_nat n <> [].
Proof.
  unfold str_of_nat. intros E. apply uint_codes_nil in E.
  pose proof (Unsigned.of_to n) as R. rewrite E in R.
  cbn in R. subst n. discriminate E.
Qed.

(** A header states the count it was built with. *)
Lemma stated_count_make_header (tag : option str) (n : nat) :
  stated_count (make_header tag n) = Some n.
Proof.
  unfold stated_count, make_header. cbn [content].
  rewrite !rev_app_distr, <- !app_assoc, strip_prefix_app.
  change (rev [93%N; 32%N]) with [32%N; 93%N]. cbn [app].
  rewrite take_while_app.
  - destruct (rev (str_of_nat n)) as [|d ds] eqn:E.
    + apply (f_equal (@rev _)) in E. rewrite rev_involutive in E.
      exfalso. exact (@str_of_nat_nonempty n E).
    + rewrite <- E, rev_involutive, nat_of_digits_str_of_nat. reflexivity.
  - apply Forall_rev, uint_codes_digits.
  - reflexivity.
Qed.

Section RegexFacts.
Context {py : PyText}.

Lemma match_tag_body_nonempty (s t : str) :
  match_tag_body s = Some t -> t <> [].
Proof.
  destruct s as [|c rest]; simpl; [discriminate|].
  destruct (tag_char c); [|discriminate].
  destruct (match_tag_body rest).
  - intros E; inversion E; discriminate.
  - destruct rest as [|d ?]; [discriminate|].
    destruct (N.eqb d 93); [|discriminate].
    intros E; inversion E; discriminate.
Qed.

(** The tag of a line is never the empty string. *)
Lemma search_tag_nonempty (line t : str) :
  search_tag line = Some t -> t <> [].
Proof.
  induction line as [|c rest IH]; simpl; [discriminate|].
  destruct (N.eqb c 91).
  - destruct (match_tag_body rest) eqn:E.
    + intros R; inversion R; subst. eapply match_tag_body_nonempty; eauto.
    + exact IH.
  - exact IH.
Qed.

Lemma truthy_search_tag (line : str) :
  truthy (search_tag line)
  = match search_tag line with Some _ => true | None => false end.
Proof.
  destruct (search_tag line) as [t|] eqn:E; [|reflexivity].
  apply search_tag_nonempty in E. destruct t; [congruence | reflexivity].
Qed.

End RegexFacts.

(* ================================================================== *)
(** ** The filter and collapse pass *)

Section FilterFacts.
Context {py : PyText} {ut : Utils}.
Variable v : Viewer.

Lemma filter_step_keeps (st : FilterLoop) (line : str) :
  filter_step v (lower (search_var v)) st line
  = if keeps v line then accept_line v st line else st.
Proof.
  unfold filter_step, keeps.
  destruct (search_rejects (lower (search_var v)) line); simpl;
    [reflexivity|].
  destruct (should_show_log line (show_filters_of v)); reflexivity.
Qed.

(** The loop over all lines is the loop body for accepted lines run over
    the lines that pass the two tests. *)
Lemma loop_over_filtered (ls : list str) (st : FilterLoop) :
  fold_left (filter_step v (lower (search_var v))) ls st
  = fold_left (accept_line v) (filter (keeps v) ls) st.
Proof.
  revert st. induction ls as [|l ls IH]; intros st; simpl; [reflexivity|].
  rewrite filter_step_keeps. destruct (keeps v l); simpl; apply IH.
Qed.

Lemma display_list_collapse_pass :
  display_list v = collapse_pass v (filtered_lines v).
Proof.
  unfold display_list, filter_pass, collapse_pass, filtered_lines.
  cbn [fst]. rewrite loop_over_filtered. reflexivity.
Qed.

Lemma flush_last_emit (st : FilterLoop) :
  collapse_repeated_tags v = true ->
  tag_count st = length (tag_group st) ->
  fst (flush_last v st)
  = filtered_logs st ++ emit_run (current_tag st) (tag_group st).
Proof.
  intros Hc Hn. unfold flush_last, emit_run. rewrite Hc, Hn. cbn [andb].
  destruct (GROUP_COLLAPSE_THRESHOLD <=? length (tag_group st)); cbn [fst].
  - rewrite <- app_assoc. reflexivity.
  - destruct (tag_group st); cbn [fst]; [rewrite app_nil_r|]; reflexivity.
Qed.

Lemma flush_in_loop_emit (b : bool) (st : FilterLoop) :
  tag_count st = length (tag_group st) ->
  fst (flush_in_loop b st)
  = filtered_logs st ++ emit_run (current_tag st) (tag_group st).
Proof.
  intros Hn. unfold flush_in_loop, emit_run. rewrite Hn.
  destruct (GROUP_COLLAPSE_THRESHOLD <=? length (tag_group st)); cbn [fst].
  - rewrite <- app_assoc. reflexivity.
  - destruct (tag_group st); cbn [fst]; [rewrite app_nil_r|]; reflexivity.
Qed.

Lemma is_same_group_orb (st : FilterLoop) (t : option str) (c : str) :
  is_same_group st t c
  = same_group_test (current_tag st) (current_message_pattern st) t c.
Proof.
  unfold is_same_group, same_group_test.
  destruct (truthy t && opt_str_eqb t (current_tag st)); [reflexivity|].
  cbn [orb].
  destruct (negb (truthy t) && truthy (current_message_pattern st)
            && opt_str_eqb (Some c) (current_message_pattern st));
    reflexivity.
Qed.

(** With collapsing on, the loop and the final flush add [runs_out] to
    what was already emitted, provided the counter agrees with the
    pending run, which every step maintains. *)
Lemma loop_output (ls : list str) :
  collapse_repeated_tags v = true ->
  forall st,
    tag_count st = length (tag_group st) ->
    fst (flush_last v (fold_left (accept_line v) ls st))
    = filtered_logs st
      ++ runs_out v (current_tag st) (current_message_pattern st)
           (tag_group st) ls.
Proof.
  intros Hc. induction ls as [|l ls IH]; intros st Hn.
  - simpl. apply flush_last_emit; assumption.
  - cbn [fold_left runs_out]. unfold accept_line at 2. rewrite Hc.
    rewrite is_same_group_orb. fold (parsed v l).
    destruct (same_group_test (current_tag st) (current_message_pattern st)
                (line_tag_of l) (content_clean_of (parsed v l))).
    + rewrite IH.
      * reflexivity.
      * cbn [push_member tag_count tag_group]. rewrite length_app, Hn.
        reflexivity.
    + unfold start_group.
      pose proof (flush_in_loop_emit (is_virtual (log_tree v)) st Hn) as F.
      destruct (flush_in_loop (is_virtual (log_tree v)) st) as [logs marks].
      cbn [fst] in F. rewrite IH by reflexivity.
      cbn [filtered_logs current_tag current_message_pattern tag_group].
      rewrite F, <- app_assoc. reflexivity.
Qed.

(** With collapsing off, every accepted line goes out as parsed. *)
Lemma loop_output_plain (ls : list str) :
  collapse_repeated_tags v = false ->
  forall st,
    tag_group st = [] ->
    fst (flush_last v (fold_left (accept_line v) ls st))
    = filtered_logs st ++ List.map (parsed v) ls.
Proof.
  intros Hc. induction ls as [|l ls IH]; intros st Hg.
  - simpl. unfold flush_last. rewrite Hc, Hg. cbn. symmetry.
    apply app_nil_r.
  - cbn [fold_left List.map]. unfold accept_line at 2. rewrite Hc.
    rewrite IH by exact Hg. cbn [emit_plain filtered_logs].
    rewrite <- app_assoc. reflexivity.
Qed.

Lemma collapse_pass_runs (ls : list str) :
  collapse_repeated_tags v = true ->
  collapse_pass v ls = runs_out v None None [] ls.
Proof.
  intros Hc. unfold collapse_pass. rewrite loop_output by auto. reflexivity.
Qed.

Lemma collapse_pass_plain (ls : list str) :
  collapse_repeated_tags v = false ->
  collapse_pass v ls = List.map (parsed v) ls.
Proof.
  intros Hc. unfold collapse_pass. rewrite loop_output_plain by auto.
  reflexivity.
Qed.

End FilterFacts.

(** Case analysis on the test of the conditional in the goal. *)
Ltac case_test :=
  match goal with
  | |- context [if ?c then _ else _] => destruct c
  end.

Section CollapseFacts.
Context {py : PyText} {ut : Utils}.
Variable v : Viewer.

Lemma apply_filter_shows :
  lt_logs (log_tree (apply_filter v)) = display_list v.
Proof.
  unfold apply_filter, display_list.
  destruct (filter_pass v) as [[logs marks] shown]. reflexivity.
Qed.

Lemma filter_idem (A : Type) (f : A -> bool) (l : list A) :
  filter f (filter f l) = filter f l.
Proof.
  induction l as [|x l IH]; simpl; [reflexivity|].
  destruct (f x) eqn:E; simpl; rewrite ?E, IH; reflexivity.
Qed.

Lemma runs_out_blocks (ls : list str) :
  forall t p g,
    runs_out v t p g ls
    = flat_map (fun b => emit_run (fst b) (snd b)) (run_blocks v t p g ls).
Proof.
  induction ls as [|l ls IH]; intros t p g; cbn [runs_out run_blocks].
  - cbn. symmetry. apply app_nil_r.
  - case_test.
    + apply IH.
    + cbn [flat_map fst snd]. rewrite IH. reflexivity.
Qed.

Lemma filter_plain_emit_run (t : option str) (g : list LogInfo) :
  filter is_plain (emit_run t g) = filter is_plain g.
Proof.
  unfold emit_run. destruct (GROUP_COLLAPSE_THRESHOLD <=? length g);
    reflexivity.
Qed.

(** Removing the headers from what the collapser emits leaves the
    pending run followed by the parsed lines, headers among them apart. *)
Lemma runs_out_plain (ls : list str) :
  forall t p g,
    filter is_plain (runs_out v t p g ls)
    = filter is_plain g ++ filter is_plain (List.map (parsed v) ls).
Proof.
  induction ls as [|l ls IH]; intros t p g; cbn [runs_out].
  - rewrite filter_plain_emit_run. cbn. symmetry. apply app_nil_r.
  - cbn [List.map].
    change (parsed v l :: List.map (parsed v) ls)
      with ([parsed v l] ++ List.map (parsed v) ls).
    rewrite (filter_app is_plain [parsed v l]).
    case_test.
    + rewrite IH, filter_app, <- app_assoc. reflexivity.
    + rewrite filter_app, filter_plain_emit_run, IH. reflexivity.
Qed.

Lemma in_emit_run (t : option str) (g : list LogInfo) (r : LogInfo) :
  In r g -> In r (emit_run t g).
Proof.
  intros Hin. unfold emit_run.
  destruct (GROUP_COLLAPSE_THRESHOLD <=? length g); [right|]; assumption.
Qed.

Lemma runs_out_in (ls : list str) (r : LogInfo) :
  forall t p g,
    In r g \/ In r (List.map (parsed v) ls) ->
    In r (runs_out v t p g ls).
Proof.
  induction ls as [|l ls IH]; intros t p g Hin; cbn [runs_out].
  - destruct Hin as [Hin|[]]. apply in_emit_run, Hin.
  - cbn [List.map In] in Hin.
    case_test.
    + apply IH. rewrite in_app_iff. cbn [In]. tauto.
    + apply in_or_app. destruct Hin as [Hin|[Hin|Hin]].
      * left. apply in_emit_run, Hin.
      * right. apply IH. left. left. exact Hin.
      * right. apply IH. right. exact Hin.
Qed.

Lemma in_emit_run_inv (t : option str) (g : list LogInfo) (r : LogInfo) :
  In r (emit_run t g) -> r = make_header t (length g) \/ In r g.
Proof.
  unfold emit_run. destruct (GROUP_COLLAPSE_THRESHOLD <=? length g).
  - intros [E|Hin]; [left; symmetry; exact E | right; exact Hin].
  - tauto.
Qed.

(** Whatever the collapser emits is a header it made or a record it was
    given. *)
Lemma runs_out_in_inv (ls : list str) (r : LogInfo) :
  forall t p g,
    In r (runs_out v t p g ls) ->
    is_group_header r = true \/ In r g \/ In r (List.map (parsed v) ls).
Proof.
  induction ls as [|l ls IH]; intros t p g; cbn [runs_out].
  - intros Hin. apply in_emit_run_inv in Hin as [->|Hin]; auto.
  - cbn [List.map In].
    case_test.
    + intros Hin. apply IH in Hin. rewrite in_app_iff in Hin.
      cbn [In] in Hin. tauto.
    + intros Hin. apply in_app_or in Hin as [Hin|Hin].
      * apply in_emit_run_inv in Hin as [->|Hin]; auto.
      * apply IH in Hin. cbn [In] in Hin. tauto.
Qed.

Lemma well_grouped_plain_app (g rest : list LogInfo) :
  Forall (fun m => is_group_header m = false) g ->
  WellGrouped rest -> WellGrouped (g ++ rest).
Proof.
  intros Hg Hr. induction Hg as [|x g Hx _ IH]; simpl; [exact Hr|].
  apply wg_plain; assumption.
Qed.

Lemma well_grouped_emit_run (t : option str) (g rest : list LogInfo) :
  Forall (fun m => is_group_header m = false) g ->
  WellGrouped rest -> WellGrouped (emit_run t g ++ rest).
Proof.
  intros Hg Hr. unfold emit_run.
  destruct (GROUP_COLLAPSE_THRESHOLD <=? length g).
  - cbn [app]. apply wg_group; auto using stated_count_make_header.
  - apply well_grouped_plain_app; assumption.
Qed.

Hypothesis parser_plain :
  forall line flag, is_group_header (parse_log_line line flag) = false.

Lemma runs_out_well_grouped (ls : list str) :
  forall t p g,
    Forall (fun m => is_group_header m = false) g ->
    WellGrouped (runs_out v t p g ls).
Proof.
  induction ls as [|l ls IH]; intros t p g Hg; cbn [runs_out].
  - rewrite <- (app_nil_r (emit_run t g)).
    apply well_grouped_emit_run; [exact Hg | constructor].
  - case_test.
    + apply IH. apply Forall_app. split; [exact Hg|].
      constructor; [apply parser_plain | constructor].
    + apply well_grouped_emit_run; [exact Hg|].
      apply IH. constructor; [apply parser_plain | constructor].
Qed.

Lemma filter_plain_parsed (ls : list str) :
  filter is_plain (List.map (parsed v) ls) = List.map (parsed v) ls.
Proof.
  induction ls as [|l ls IH]; simpl; [reflexivity|].
  unfold is_plain at 1, parsed at 1. rewrite parser_plain. simpl.
  rewrite IH. reflexivity.
Qed.

Lemma run_blocks_plain (ls : list str) :
  forall t p g,
    Forall (fun m => is_group_header m = false) g ->
    Forall (fun b => Forall (fun m => is_group_header m = false) (snd b))
      (run_blocks v t p g ls).
Proof.
  induction ls as [|l ls IH]; intros t p g Hg; cbn [run_blocks].
  - constructor; [exact Hg | constructor].
  - case_test.
    + apply IH. apply Forall_app. split; [exact Hg|].
      constructor; [apply parser_plain | constructor].
    + constructor; [exact Hg|].
      apply IH. constructor; [apply parser_plain | constructor].
Qed.

End CollapseFacts.

(* ================================================================== *)
(** ** Runs *)

Section RunFacts.
Context {py : PyText} {ut : Utils}.
Variable v : Viewer.

Lemma str_eqb_sym (a b : str) : str_eqb a b = str_eqb b a.
Proof.
  destruct (str_eqb a b) eqn:E.
  - apply str_eqb_eq in E. subst. symmetry. apply str_eqb_refl.
  - destruct (str_eqb b a) eqn:E'; [|reflexivity].
    apply str_eqb_eq in E'. subst. rewrite str_eqb_refl in E. discriminate.
Qed.

(** The loop's test against the variables set by line [a] is [joins]. *)
Lemma same_group_test_joins (a b : str) :
  same_group_test (fst (run_vars v a)) (snd (run_vars v a))
    (line_tag_of b) (content_clean_of (parsed v b))
  = joins v a b.
Proof.
  unfold same_group_test, run_vars, joins, signature_of, line_tag_of.
  cbn [fst snd]. rewrite !truthy_search_tag.
  generalize (content_clean_of (parsed v a)) as ca.
  generalize (content_clean_of (parsed v b)) as cb. intros cb ca.
  destruct (search_tag b) as [tb|], (search_tag a) as [ta|]; cbn;
    rewrite ?andb_false_r, ?orb_false_r; try reflexivity.
  - apply str_eqb_sym.
  - destruct ca; [reflexivity|]. apply str_eqb_sym.
Qed.

Lemma run_vars_coherent (l : str) :
  coherent (fst (run_vars v l)) (snd (run_vars v l)).
Proof.
  unfold coherent, run_vars, line_tag_of. cbn [fst snd].
  rewrite truthy_search_tag. destruct (search_tag l); auto.
Qed.

(** A line that passes the test carries the values of the variables. *)
Lemma same_group_test_vars (t p : option str) (l : str) :
  coherent t p ->
  same_group_test t p (line_tag_of l) (content_clean_of (parsed v l)) = true ->
  run_vars v l = (t, p).
Proof.
  unfold coherent, same_group_test, run_vars, line_tag_of.
  rewrite truthy_search_tag.
  generalize (content_clean_of (parsed v l)) as c. intros c.
  destruct (search_tag l) as [tl|]; cbn.
  - rewrite orb_false_r. destruct t as [t|]; cbn; [|discriminate].
    intros [C|C]; [discriminate|]. subst p. intros E.
    apply str_eqb_eq in E. subst. reflexivity.
  - destruct p as [p|]; cbn; [|discriminate].
    intros [C|C]; [|discriminate]. subst t.
    rewrite andb_true_iff. intros [_ E]. apply str_eqb_eq in E. subst.
    reflexivity.
Qed.

Lemma same_group_test_start (l : str) :
  same_group_test None None (line_tag_of l) (content_clean_of (parsed v l))
  = false.
Proof.
  unfold same_group_test, line_tag_of. rewrite truthy_search_tag.
  destruct (search_tag l); reflexivity.
Qed.

Lemma runs_out_cons (t p : option str) (g : list LogInfo) (l : str)
    (ls : list str) :
  runs_out v t p g (l :: ls)
  = if same_group_test t p (line_tag_of l) (content_clean_of (parsed v l))
    then runs_out v t p (g ++ [parsed v l]) ls
    else emit_run t g
         ++ runs_out v (fst (run_vars v l)) (snd (run_vars v l))
              [parsed v l] ls.
Proof. reflexivity. Qed.

(** Lines that all pass the test are gathered into the pending run. *)
Lemma runs_out_gather (a : str) (rest post : list str) :
  Forall (fun l => joins v a l = true) rest ->
  forall g,
    runs_out v (fst (run_vars v a)) (snd (run_vars v a)) g (rest ++ post)
    = runs_out v (fst (run_vars v a)) (snd (run_vars v a))
        (g ++ List.map (parsed v) rest) post.
Proof.
  induction 1 as [|l rest Hl _ IH]; intros g.
  - cbn. rewrite app_nil_r. reflexivity.
  - cbn [app]. rewrite runs_out_cons, same_group_test_joins, Hl, IH.
    cbn [List.map]. rewrite <- app_assoc. reflexivity.
Qed.

(** The output splits where a line does not join the run before it. *)
Lemma runs_out_split (pre : list str) (l : str) (ls : list str) :
  pre <> [] -> joins v (last pre l) l = false ->
  forall t p g,
    coherent t p ->
    runs_out v t p g (pre ++ l :: ls)
    = runs_out v t p g pre
      ++ runs_out v (fst (run_vars v l)) (snd (run_vars v l))
           [parsed v l] ls.
Proof.
  induction pre as [|x pre IH]; intros Hne Hj t p g Hc; [congruence|].
  destruct pre as [|y pre].
  - cbn [app last] in *. rewrite !runs_out_cons.
    destruct (same_group_test t p (line_tag_of x)
                (content_clean_of (parsed v x))) eqn:E.
    + apply same_group_test_vars in E; [|exact Hc].
      assert (Et : t = fst (run_vars v x)) by (rewrite E; reflexivity).
      assert (Ep : p = snd (run_vars v x)) by (rewrite E; reflexivity).
      rewrite Et at 1. rewrite Ep at 1.
      rewrite same_group_test_joins, Hj. reflexivity.
    + rewrite same_group_test_joins, Hj. cbn [runs_out].
      rewrite <- app_assoc. reflexivity.
  - change ((x :: y :: pre) ++ l :: ls) with (x :: ((y :: pre) ++ l :: ls)).
    rewrite (runs_out_cons t p g x), (runs_out_cons t p g x (y :: pre)).
    assert (Hj' : joins v (last (y :: pre) l) l = false) by exact Hj.
    destruct (same_group_test t p (line_tag_of x)
                (content_clean_of (parsed v x))).
    + apply IH; [discriminate | exact Hj' | exact Hc].
    + rewrite IH; [|discriminate | exact Hj' | apply run_vars_coherent].
      rewrite <- app_assoc. reflexivity.
Qed.

Hypothesis collapsing : collapse_repeated_tags v = true.
Hypothesis threshold_positive : 1 <= GROUP_COLLAPSE_THRESHOLD.

Lemma emit_run_nil (t : option str) : emit_run t [] = [].
Proof.
  unfold emit_run. cbn [length].
  destruct (Nat.leb_spec GROUP_COLLAPSE_THRESHOLD 0); [lia | reflexivity].
Qed.

Lemma collapse_pass_nil : collapse_pass v [] = [].
Proof.
  rewrite collapse_pass_runs by exact collapsing. apply emit_run_nil.
Qed.

Lemma collapse_pass_cons (l : str) (ls : list str) :
  collapse_pass v (l :: ls)
  = runs_out v (fst (run_vars v l)) (snd (run_vars v l)) [parsed v l] ls.
Proof.
  rewrite collapse_pass_runs by exact collapsing.
  rewrite runs_out_cons, same_group_test_start, emit_run_nil. reflexivity.
Qed.

(** The collapser treats the two sides of a run boundary separately. *)
Lemma collapse_pass_split (pre : list str) (l : str) (ls : list str) :
  pre = [] \/ joins v (last pre l) l = false ->
  collapse_pass v (pre ++ l :: ls)
  = collapse_pass v pre ++ collapse_pass v (l :: ls).
Proof.
  intros [->|Hj].
  - rewrite collapse_pass_nil. reflexivity.
  - destruct pre as [|x pre].
    + rewrite collapse_pass_nil. reflexivity.
    + rewrite (collapse_pass_cons l ls).
      rewrite (collapse_pass_runs v (x :: pre)) by exact collapsing.
      rewrite (collapse_pass_runs v ((x :: pre) ++ l :: ls))
        by exact collapsing.
      apply runs_out_split; [discriminate | exact Hj | left; reflexivity].
Qed.

(** A run on its own: one header and the members, or the members. *)
Lemma collapse_pass_run (first : str) (rest post : list str) :
  Forall (fun l => joins v first l = true) rest ->
  post = [] \/ joins v first (hd first post) = false ->
  collapse_pass v ((first :: rest) ++ post)
  = emit_run (run_tag first) (List.map (parsed v) (first :: rest))
    ++ collapse_pass v post.
Proof.
  intros Hrun Hpost. cbn [app]. rewrite collapse_pass_cons.
  rewrite runs_out_gather by exact Hrun. cbn [app List.map].
  destruct post as [|l ls].
  - rewrite collapse_pass_nil, app_nil_r. reflexivity.
  - destruct Hpost as [C|Hj]; [discriminate|]. cbn [hd] in Hj.
    rewrite runs_out_cons, same_group_test_joins, Hj, collapse_pass_cons.
    reflexivity.
Qed.

End RunFacts.

(* ================================================================== *)
(** ** Group marks *)

Section MarkFacts.
Context {py : PyText} {ut : Utils}.
Variable v : Viewer.

Lemma firstn_length_app (A : Type) (g rest : list A) :
  firstn (length g) (g ++ rest) = g.
Proof.
  induction g as [|x g IH]; simpl; [reflexivity|]. rewrite IH. reflexivity.
Qed.

Lemma mark_fits_app (logs more : list LogInfo) (m : nat * nat) :
  mark_fits logs m -> mark_fits (logs ++ more) m.
Proof.
  intros (h & Hn & Hh & Hc & Hr & Hm). exists h.
  split; [|split; [exact Hh|split; [exact Hc|split]]].
  - rewrite nth_error_app1 by lia. exact Hn.
  - rewrite length_app. lia.
  - rewrite skipn_app, firstn_app.
    replace (S (fst m) - length logs) with 0 by lia.
    replace (snd m - fst m - length (skipn (S (fst m)) logs)) with 0
      by (rewrite length_skipn; lia).
    cbn [skipn firstn]. rewrite app_nil_r. exact Hm.
Qed.

Lemma mark_fits_new (before : list LogInfo) (t : option str)
    (g rest : list LogInfo) :
  Forall (fun r => is_group_header r = false) g ->
  mark_fits ((before ++ [make_header t (length g)]) ++ g ++ rest)
    (length before, length before + length g).
Proof.
  intros Hg. exists (make_header t (length g)). cbn [fst snd].
  replace (length before + length g - length before) with (length g)
    by lia.
  rewrite <- !app_assoc. cbn [app].
  split; [|split; [reflexivity|split; [|split]]].
  - rewrite nth_error_app2 by lia. rewrite Nat.sub_diag. reflexivity.
  - apply stated_count_make_header.
  - rewrite length_app. cbn [length]. rewrite length_app. lia.
  - rewrite skipn_app, skipn_all2 by lia.
    replace (S (length before) - length before) with 1 by lia.
    cbn [skipn app]. rewrite firstn_length_app. exact Hg.
Qed.

Hypothesis parser_plain :
  forall line flag, is_group_header (parse_log_line line flag) = false.

Lemma flush_in_loop_marks (b : bool) (st : FilterLoop) :
  loop_invariant st ->
  Forall (mark_fits (fst (flush_in_loop b st))) (snd (flush_in_loop b st)).
Proof.
  intros (Hn & Hg & Hm). unfold flush_in_loop. rewrite Hn.
  destruct (GROUP_COLLAPSE_THRESHOLD <=? length (tag_group st)).
  - cbn [fst snd].
    assert (Hold : Forall
              (mark_fits ((filtered_logs st
                           ++ [make_header (current_tag st)
                                 (length (tag_group st))])
                          ++ tag_group st))
              (group_marks st)).
    { eapply Forall_impl; [|exact Hm]. intros m Hfit.
      rewrite <- app_assoc. apply mark_fits_app, Hfit. }
    destruct b; [|exact Hold].
    destruct (tag_group_start st); [|exact Hold].
    apply Forall_app. split; [exact Hold|].
    constructor; [|constructor].
    rewrite length_app. cbn [length].
    replace (length (filtered_logs st) + 1 - 1)
      with (length (filtered_logs st)) by lia.
    pose proof (mark_fits_new (filtered_logs st) (current_tag st)
                  (tag_group st) [] Hg) as Hnew.
    rewrite app_nil_r in Hnew. exact Hnew.
  - destruct (tag_group st); cbn [fst snd]; [exact Hm|].
    eapply Forall_impl; [|exact Hm]. intros m Hfit.
    apply mark_fits_app, Hfit.
Qed.

Lemma accept_line_invariant (st : FilterLoop) (line : str) :
  loop_invariant st -> loop_invariant (accept_line v st line).
Proof.
  intros Hinv. unfold accept_line.
  destruct (collapse_repeated_tags v).
  - destruct (is_same_group st (line_tag_of line)
                (content_clean_of
                   (parse_log_line line (collapse_long_lines v)))).
    + destruct Hinv as (Hn & Hg & Hm). unfold loop_invariant.
      cbn [push_member tag_count tag_group filtered_logs group_marks].
      split; [rewrite length_app, Hn; reflexivity|].
      split; [|exact Hm].
      apply Forall_app. split; [exact Hg|].
      constructor; [apply parser_plain | constructor].
    + pose proof (flush_in_loop_marks (is_virtual (log_tree v)) st Hinv)
        as Hm.
      unfold start_group.
      destruct (flush_in_loop (is_virtual (log_tree v)) st) as [logs marks].
      cbn [fst snd] in Hm. unfold loop_invariant.
      cbn [tag_count tag_group filtered_logs group_marks].
      split; [reflexivity|]. split; [|exact Hm].
      constructor; [apply parser_plain | constructor].
  - destruct Hinv as (Hn & Hg & Hm). unfold loop_invariant.
    cbn [emit_plain tag_count tag_group filtered_logs group_marks].
    split; [exact Hn|]. split; [exact Hg|].
    eapply Forall_impl; [|exact Hm]. intros m Hfit.
    apply mark_fits_app, Hfit.
Qed.

Lemma loop_invariant_fold (ls : list str) (st : FilterLoop) :
  loop_invariant st -> loop_invariant (fold_left (accept_line v) ls st).
Proof.
  revert st. induction ls as [|l ls IH]; intros st Hinv; [exact Hinv|].
  apply IH, accept_line_invariant, Hinv.
Qed.

Lemma flush_last_marks (st : FilterLoop) :
  loop_invariant st ->
  Forall (mark_fits (fst (flush_last v st))) (snd (flush_last v st)).
Proof.
  intros (Hn & Hg & Hm). unfold flush_last. rewrite Hn.
  destruct (collapse_repeated_tags v
            && (GROUP_COLLAPSE_THRESHOLD <=? length (tag_group st))).
  - cbn [fst snd].
    assert (Hold : Forall
              (mark_fits ((filtered_logs st
                           ++ [make_header (current_tag st)
                                 (length (tag_group st))])
                          ++ tag_group st))
              (group_marks st)).
    { eapply Forall_impl; [|exact Hm]. intros m Hfit.
      rewrite <- app_assoc. apply mark_fits_app, Hfit. }
    destruct (is_virtual (log_tree v)); [|exact Hold].
    destruct (tag_group_start st); [|exact Hold].
    apply Forall_app. split; [exact Hold|].
    constructor; [|constructor].
    rewrite !length_app. cbn [length].
    replace (length (filtered_logs st) + 1 + length (tag_group st) - 1
             - length (tag_group st))
      with (length (filtered_logs st)) by lia.
    replace (length (filtered_logs st) + 1 + length (tag_group st) - 1)
      with (length (filtered_logs st) + length (tag_group st)) by lia.
    pose proof (mark_fits_new (filtered_logs st) (current_tag st)
                  (tag_group st) [] Hg) as Hnew.
    rewrite app_nil_r in Hnew. exact Hnew.
  - destruct (tag_group st); cbn [fst snd]; [exact Hm|].
    eapply Forall_impl; [|exact Hm]. intros m Hfit.
    apply mark_fits_app, Hfit.
Qed.

(** Every range [apply_filter] marks as a group fits the list it
    displays. *)
Lemma apply_filter_marks :
  Forall (mark_fits (lt_logs (log_tree (apply_filter v))))
    (lt_marks (log_tree (apply_filter v))).
Proof.
  unfold apply_filter, filter_pass. rewrite loop_over_filtered.
  set (st := fold_left (accept_line v) (filter (keeps v) (current_logs v))
               loop_start).
  assert (Hinv : loop_invariant st).
  { apply loop_invariant_fold. repeat split; constructor. }
  pose proof (flush_last_marks st Hinv) as Hm.
  destruct (flush_last v st) as [logs marks]. exact Hm.
Qed.

End MarkFacts.

(* ================================================================== *)
(** ** What [apply_filter] displays *)

Section DisplayListTheorems.
Context {py : PyText} {ut : Utils}.

Lemma contains_nil (s : str) : contains s [] = true.
Proof. destruct s; reflexivity. Qed.

(** The test a line must pass is a substring test of the lowered search
    text on the lowered raw line, and the level test on the raw line;
    the parsed content plays no part in it. *)
Lemma keeps_spec (v : Viewer) (line : str) :
  keeps v line
  = contains (lower line) (lower (search_var v))
    && should_show_log line (show_filters_of v).
Proof.
  unfold keeps, search_rejects.
  destruct (lower (search_var v)).
  - rewrite contains_nil. reflexivity.
  - rewrite negb_involutive. reflexivity.
Qed.

Lemma emitted_run_emit_run (first : str) (members : list LogInfo) :
  emitted_run first members = emit_run (run_tag first) members.
Proof.
  unfold emitted_run, emit_run.
  destruct (GROUP_COLLAPSE_THRESHOLD <=? length members); reflexivity.
Qed.

(** How [joins] differs from equality of signatures: the empty content
    key joins nothing. *)
Lemma joins_signature (v : Viewer) (a b : str) :
  joins v a b
  = signature_eqb (signature_of v a) (signature_of v b)
    && negb (signature_eqb (signature_of v a) (SigKey [])).
Proof.
  unfold joins.
  destruct (signature_of v a) as [x|x], (signature_of v b) as [y|y]; cbn;
    rewrite ?andb_true_r; try reflexivity.
  destruct x; cbn; rewrite ?andb_true_r, ?andb_false_r; reflexivity.
Qed.

(** C3.  [apply_filter] applies the search test and the level test
    before any collapsing: what it displays is the collapser run over
    the lines that passed both tests, it is what it would display for a
    viewer holding only those lines, and every record on display is a
    header or the parsed form of a line that passed.  Runs, and their
    lengths against the threshold, are thus those of the filtered
    stream. *)
Theorem filter_before_collapse (v : Viewer) :
  lt_logs (log_tree (apply_filter v)) = collapse_pass v (filtered_lines v)
  /\ lt_logs (log_tree (apply_filter v))
     = lt_logs (log_tree (apply_filter (with_lines v (filtered_lines v))))
  /\ Forall (fun r => is_group_header r = true
                      \/ In r (List.map (parsed v) (filtered_lines v)))
       (lt_logs (log_tree (apply_filter v))).
Proof.
  rewrite !apply_filter_shows. split; [|split].
  - apply display_list_collapse_pass.
  - rewrite !display_list_collapse_pass.
    change (filtered_lines (with_lines v (filtered_lines v)))
      with (filter (keeps v) (filter (keeps v) (current_logs v))).
    rewrite filter_idem. reflexivity.
  - rewrite display_list_collapse_pass. apply Forall_forall. intros r Hin.
    destruct (collapse_repeated_tags v) eqn:Hc.
    + rewrite collapse_pass_runs in Hin by exact Hc.
      apply runs_out_in_inv in Hin as [H|[[]|H]]; auto.
    + rewrite collapse_pass_plain in Hin by exact Hc. auto.
Qed.

(** C9.  Deleting the group headers from what [apply_filter] displays
    leaves exactly the parsed records of the lines that passed the level
    and search tests, in file order: collapsing drops, repeats and moves
    nothing.  The parser is assumed never to tag a record of its own as
    a group header. *)
Theorem headers_removed_is_filtered (v : Viewer) :
  (forall line flag, is_group_header (parse_log_line line flag) = false) ->
  filter is_plain (lt_logs (log_tree (apply_filter v)))
  = List.map (parsed v) (filtered_lines v).
Proof.
  intros Hp. rewrite apply_filter_shows, display_list_collapse_pass.
  destruct (collapse_repeated_tags v) eqn:Hc.
  - rewrite collapse_pass_runs by exact Hc.
    rewrite runs_out_plain. apply filter_plain_parsed, Hp.
  - rewrite collapse_pass_plain by exact Hc. apply filter_plain_parsed, Hp.
Qed.

(** C5.  The search test of [apply_filter] is the substring test of the
    lowered search text on the lowered raw line, for every line and
    every search text: the loop sends a line away exactly when that test
    fails, what is displayed is the collapser run over the lines of the
    log that pass that test and the level test, and so a line that
    contains the search text, case ignored, and passes the level test is
    on display in parsed form, whatever the parser did to its content,
    while a line that does not contain it never reaches the display. *)
Theorem search_tests_raw_line (v : Viewer) (line : str) :
  search_rejects (lower (search_var v)) line
  = negb (contains (lower line) (lower (search_var v)))
  /\ lt_logs (log_tree (apply_filter v))
     = collapse_pass v
         (filter
            (fun l => contains (lower l) (lower (search_var v))
                      && should_show_log l (show_filters_of v))
            (current_logs v))
  /\ (In line (current_logs v) ->
      contains (lower line) (lower (search_var v)) = true ->
      should_show_log line (show_filters_of v) = true ->
      In (parse_log_line line (collapse_long_lines v))
         (lt_logs (log_tree (apply_filter v)))).
Proof.
  split; [|split].
  - unfold search_rejects. destruct (lower (search_var v)) eqn:E.
    + rewrite contains_nil. reflexivity.
    + reflexivity.
  - rewrite apply_filter_shows, display_list_collapse_pass.
    unfold filtered_lines. f_equal. apply filter_ext.
    intros l. apply keeps_spec.
  - intros Hin Hs Hl.
    assert (Hk : In line (filtered_lines v)).
    { apply filter_In. split; [exact Hin|]. rewrite keeps_spec, Hs, Hl.
      reflexivity. }
    rewrite apply_filter_shows, display_list_collapse_pass.
    apply (in_map (parsed v)) in Hk.
    destruct (collapse_repeated_tags v) eqn:Hc.
    + rewrite collapse_pass_runs by exact Hc. apply runs_out_in. right.
      exact Hk.
    + rewrite collapse_pass_plain by exact Hc. exact Hk.
Qed.

(** C2.  With collapsing on, what [apply_filter] displays is the runs of
    the filtered stream one after the other, each under a header when it
    reaches the threshold; every header states the number of members of
    its run, which are the records that follow it, and no member is a
    header; every range marked as a group on the virtual widget starts
    on a header and spans the members it counts.  The parser is assumed
    never to tag a record of its own as a group header. *)
Theorem headers_count_their_members (v : Viewer) :
  (forall line flag, is_group_header (parse_log_line line flag) = false) ->
  collapse_repeated_tags v = true ->
  WellGrouped (lt_logs (log_tree (apply_filter v)))
  /\ lt_logs (log_tree (apply_filter v))
     = flat_map
         (fun run =>
            (if GROUP_COLLAPSE_THRESHOLD <=? length (snd run)
             then [make_header (fst run) (length (snd run))]
             else [])
            ++ snd run)
         (runs_of v)
  /\ Forall (fun run => Forall (fun m => is_group_header m = false) (snd run))
       (runs_of v)
  /\ Forall (mark_fits (lt_logs (log_tree (apply_filter v))))
       (lt_marks (log_tree (apply_filter v))).
Proof.
  intros Hp Hc. split; [|split; [|split]].
  - rewrite apply_filter_shows, display_list_collapse_pass.
    rewrite collapse_pass_runs by exact Hc.
    apply runs_out_well_grouped; [exact Hp | constructor].
  - rewrite apply_filter_shows, display_list_collapse_pass.
    rewrite collapse_pass_runs by exact Hc.
    rewrite runs_out_blocks. unfold runs_of. apply flat_map_ext.
    intros [t g]. unfold emit_run. cbn [fst snd].
    destruct (GROUP_COLLAPSE_THRESHOLD <=? length g); reflexivity.
  - apply run_blocks_plain; [exact Hp | constructor].
  - apply apply_filter_marks, Hp.
Qed.

(** C4, as amended.  With collapsing on and a threshold of at least one,
    take a run of the filtered stream that the loop keeps together: every
    line after the first joins it (same tag, or no tag and the same
    content key, the key not being empty), the line before the run does
    not join the first line, and the line after does not join the run.
    If the run reaches the threshold, one header tagged "group_header"
    goes out, followed at once by the members in order; if not, the
    members go out with no header.  What precedes and what follows the
    run is displayed as if it stood alone. *)
Theorem run_emission (v : Viewer) (pre : list str) (first : str)
    (rest post : list str) :
  collapse_repeated_tags v = true ->
  1 <= GROUP_COLLAPSE_THRESHOLD ->
  filtered_lines v = pre ++ (first :: rest) ++ post ->
  Forall (fun l => joins v first l = true) rest ->
  (pre = [] \/ joins v (last pre first) first = false) ->
  (post = [] \/ joins v first (hd first post) = false) ->
  lt_logs (log_tree (apply_filter v)) =
    collapse_pass v pre
    ++ emitted_run first (List.map (parsed v) (first :: rest))
    ++ collapse_pass v post.
Proof.
  intros Hc Ht Hfl Hrun Hpre Hpost.
  rewrite apply_filter_shows, display_list_collapse_pass, Hfl.
  cbn [app].
  rewrite (collapse_pass_split v Hc Ht pre first (rest ++ post) Hpre).
  f_equal. rewrite emitted_run_emit_run.
  apply (collapse_pass_run v Hc Ht first rest post Hrun Hpost).
Qed.

(** Untagged lines whose parsed content is empty never join: with a
    threshold of two or more, any number of copies of such a line goes
    out bare. *)
Lemma empty_key_lines_stay_apart (v : Viewer) (l : str) (n : nat) :
  collapse_repeated_tags v = true ->
  2 <= GROUP_COLLAPSE_THRESHOLD ->
  line_tag_of l = None ->
  content (parsed v l) = [] ->
  collapse_pass v (repeat l n) = repeat (parsed v l) n.
Proof.
  intros Hc Ht Htag Hcontent.
  assert (Hvars : run_vars v l = (None, Some [])).
  { unfold run_vars, content_clean_of. rewrite Htag, Hcontent.
    reflexivity. }
  assert (Hone : emit_run None [parsed v l] = [parsed v l]).
  { unfold emit_run. cbn [length].
    destruct (Nat.leb_spec GROUP_COLLAPSE_THRESHOLD 1); [lia|reflexivity]. }
  assert (Hrest : forall k,
            runs_out v None (Some []) [parsed v l] (repeat l k)
            = repeat (parsed v l) (S k)).
  { induction k as [|k IH]; [exact Hone|].
    cbn [repeat]. rewrite runs_out_cons, Hvars. cbn [fst snd].
    unfold same_group_test at 1. rewrite Htag. cbn [truthy andb orb negb].
    rewrite Hone, IH. reflexivity. }
  assert (Hpos : 1 <= GROUP_COLLAPSE_THRESHOLD) by lia.
  destruct n as [|n].
  - apply (collapse_pass_nil v Hc Hpos).
  - cbn [repeat]. rewrite (collapse_pass_cons v Hc Hpos).
    rewrite Hvars. apply Hrest.
Qed.

(** Hence the statement with plain equality of signatures fails for
    every parser that gives some displayed untagged line an empty
    content, on a log that repeats that line. *)
Lemma empty_key_refutes_signature_runs (v : Viewer) (l : str) :
  collapse_repeated_tags v = true ->
  2 <= GROUP_COLLAPSE_THRESHOLD ->
  line_tag_of l = None ->
  content (parsed v l) = [] ->
  keeps v l = true ->
  current_logs v = repeat l GROUP_COLLAPSE_THRESHOLD ->
  ~ run_emission_by_signature v.
Proof.
  intros Hc Ht Htag Hcontent Hk Hlogs Hclaim.
  assert (Hkeep : forall n, filter (keeps v) (repeat l n) = repeat l n).
  { induction n as [|n IH]; [reflexivity|].
    cbn [repeat filter]. rewrite Hk, IH. reflexivity. }
  assert (Hfl : filtered_lines v = repeat l GROUP_COLLAPSE_THRESHOLD).
  { unfold filtered_lines. rewrite Hlogs. apply Hkeep. }
  assert (Ek : exists k, GROUP_COLLAPSE_THRESHOLD = S k).
  { exists (pred GROUP_COLLAPSE_THRESHOLD). lia. }
  destruct Ek as [k Ek]. rewrite Ek in Hfl.
  assert (Hsig : signature_eqb (signature_of v l) (signature_of v l) = true).
  { destruct (signature_of v l); apply str_eqb_refl. }
  assert (Hall : Forall (fun l' => signature_eqb (signature_of v l)
                                     (signature_of v l') = true)
                   (repeat l k)).
  { apply Forall_forall. intros x Hx. apply repeat_spec in Hx. subst x.
    exact Hsig. }
  assert (Hone : 1 <= GROUP_COLLAPSE_THRESHOLD) by lia.
  assert (Hshape : filtered_lines v = [] ++ (l :: repeat l k) ++ []).
  { rewrite Hfl, app_nil_r. reflexivity. }
  pose proof (Hclaim [] l (repeat l k) [] Hc Hone Hshape Hall
                (or_introl eq_refl) (or_introl eq_refl)) as E.
  rewrite apply_filter_shows, display_list_collapse_pass, Hfl in E.
  rewrite (empty_key_lines_stay_apart v l (S k) Hc Ht Htag Hcontent) in E.
  rewrite (collapse_pass_nil v Hc Hone) in E.
  unfold emitted_run in E. cbn [List.map length] in E.
  rewrite length_map, repeat_length, Ek, Nat.leb_refl in E.
  cbn [repeat app] in E. injection E as Hhead _.
  apply (f_equal content) in Hhead. rewrite Hcontent in Hhead.
  discriminate Hhead.
Qed.

End DisplayListTheorems.

(* ================================================================== *)
(** ** Sorting *)

Section SortFacts.
Variables (A K : Type) (ltb : K -> K -> bool) (key : A -> K).

Hypothesis ltb_asym : forall a b, ltb a b = true -> ltb b a = false.
Hypothesis ltb_negtrans :
  forall a b c, ltb a b = false -> ltb b c = false -> ltb a c = false.

Lemma insert_desc_perm (x : A) (l : list A) :
  Permutation (insert_desc ltb key x l) (x :: l).
Proof.
  induction l as [|y l IH]; simpl; [reflexivity|].
  destruct (ltb (key x) (key y)); [|reflexivity].
  rewrite IH. apply perm_swap.
Qed.

Lemma sorted_reverse_perm (l : list A) :
  Permutation (sorted_reverse ltb key l) l.
Proof.
  induction l as [|x l IH]; simpl; [reflexivity|].
  rewrite insert_desc_perm. constructor. exact IH.
Qed.

Lemma insert_desc_sorted (x : A) (l : list A) :
  StronglySorted (not_below ltb key) l ->
  StronglySorted (not_below ltb key) (insert_desc ltb key x l).
Proof.
  induction 1 as [|y l Hs IH Hy]; simpl.
  - repeat constructor.
  - destruct (ltb (key x) (key y)) eqn:E.
    + constructor; [exact IH|].
      apply Forall_forall. intros z Hz.
      apply (Permutation_in _ (insert_desc_perm x l)) in Hz.
      destruct Hz as [<-|Hz].
      * apply ltb_asym, E.
      * rewrite Forall_forall in Hy. apply Hy, Hz.
    + constructor; [constructor; assumption|].
      constructor; [exact E|].
      apply Forall_forall. intros z Hz. rewrite Forall_forall in Hy.
      apply (ltb_negtrans _ (key y)); [exact E | apply Hy, Hz].
Qed.

Lemma sorted_reverse_sorted (l : list A) :
  StronglySorted (not_below ltb key) (sorted_reverse ltb key l).
Proof.
  induction l as [|x l IH]; simpl; [constructor|].
  apply insert_desc_sorted, IH.
Qed.

Lemma insert_desc_stable (k : K) (x : A) (l : list A) :
  filter (fun a => key_equiv ltb k (key a)) (insert_desc ltb key x l)
  = filter (fun a => key_equiv ltb k (key a)) (x :: l).
Proof.
  induction l as [|y l IH]; [reflexivity|].
  cbn [insert_desc]. destruct (ltb (key x) (key y)) eqn:E; [|reflexivity].
  cbn [filter] in *. rewrite IH.
  destruct (key_equiv ltb k (key x)) eqn:Ex, (key_equiv ltb k (key y)) eqn:Ey;
    try reflexivity.
  exfalso. unfold key_equiv in Ex, Ey.
  rewrite andb_true_iff, !negb_true_iff in Ex, Ey.
  destruct Ex as [_ Ex], Ey as [Ey _].
  rewrite (ltb_negtrans _ _ _ Ex Ey) in E. discriminate.
Qed.

(** Records whose keys are level keep the order they came in. *)
Lemma sorted_reverse_stable (k : K) (l : list A) :
  filter (fun a => key_equiv ltb k (key a)) (sorted_reverse ltb key l)
  = filter (fun a => key_equiv ltb k (key a)) l.
Proof.
  induction l as [|x l IH]; [reflexivity|].
  cbn [sorted_reverse fold_right]. rewrite insert_desc_stable.
  cbn [filter]. unfold sorted_reverse in IH. rewrite IH. reflexivity.
Qed.

End SortFacts.

Lemma nat_ltb_asym (a b : nat) : (a <? b) = true -> (b <? a) = false.
Proof. rewrite Nat.ltb_lt, Nat.ltb_ge. lia. Qed.

Lemma nat_ltb_negtrans (a b c : nat) :
  (a <? b) = false -> (b <? c) = false -> (a <? c) = false.
Proof. rewrite !Nat.ltb_ge. lia. Qed.

Lemma str_ltb_asym (a b : str) : str_ltb a b = true -> str_ltb b a = false.
Proof.
  revert b. induction a as [|x a IH]; intros [|y b]; simpl; try congruence.
  destruct (N.ltb_spec x y), (N.ltb_spec y x), (N.eqb_spec x y),
    (N.eqb_spec y x); simpl; try lia; try congruence.
  apply IH.
Qed.

Lemma str_ltb_negtrans (a b c : str) :
  str_ltb a b = false -> str_ltb b c = false -> str_ltb a c = false.
Proof.
  revert b c. induction a as [|x a IH]; intros [|y b] [|z c]; simpl;
    try congruence.
  destruct (N.ltb_spec x y), (N.ltb_spec y z), (N.ltb_spec x z),
    (N.eqb_spec x y), (N.eqb_spec y z), (N.eqb_spec x z);
    simpl; try lia; try congruence.
  apply IH.
Qed.

Lemma nat_key_equiv (a b : nat) : key_equiv Nat.ltb a b = (b =? a).
Proof.
  unfold key_equiv.
  destruct (Nat.ltb_spec a b), (Nat.ltb_spec b a), (Nat.eqb_spec b a);
    simpl; try reflexivity; lia.
Qed.

Lemma str_key_equiv (a b : str) : key_equiv str_ltb a b = str_eqb b a.
Proof.
  unfold key_equiv. revert b.
  induction a as [|x a IH]; intros [|y b]; simpl; try reflexivity.
  unfold char_eqb.
  destruct (N.ltb_spec x y), (N.ltb_spec y x), (N.eqb_spec x y),
    (N.eqb_spec y x); simpl; try reflexivity; try lia.
  apply IH.
Qed.

(* ================================================================== *)
(** ** Group and message panels *)

Lemma sorted_groups_perm (v : Viewer) :
  Permutation (sorted_groups v) (groups v).
Proof. apply sorted_reverse_perm. Qed.

Lemma sorted_groups_desc (v : Viewer) :
  StronglySorted (fun a b => message_count b <= message_count a)
    (sorted_groups v).
Proof.
  pose proof (sorted_reverse_sorted _ _ Nat.ltb message_count
                nat_ltb_asym nat_ltb_negtrans (groups v)) as S.
  unfold sorted_groups. induction S as [|a l _ IH Ha]; constructor.
  - exact IH.
  - eapply Forall_impl; [|exact Ha]. intros b Hb. unfold not_below in Hb.
    apply Nat.ltb_ge in Hb. exact Hb.
Qed.

Lemma sorted_groups_stable (v : Viewer) (n : nat) :
  filter (fun e => message_count e =? n) (sorted_groups v)
  = filter (fun e => message_count e =? n) (groups v).
Proof.
  pose proof (sorted_reverse_stable _ _ Nat.ltb message_count
                nat_ltb_negtrans n (groups v)) as S.
  rewrite (filter_ext _ (fun e => message_count e =? n)) in S
    by (intros e; apply nat_key_equiv).
  rewrite (filter_ext (fun a => key_equiv Nat.ltb n (message_count a))
             (fun e => message_count e =? n)) in S
    by (intros e; apply nat_key_equiv).
  exact S.
Qed.

(** C8.  The group selector lists, after its fixed first entry, the
    groups by message count, largest first; groups with the same count
    stand in the order of the [groups] dict, that is in the order the
    groups were first entered. *)
Theorem group_selector_order (v : Viewer) :
  cb_values (group_combo (update_group_list v))
  = all_groups_label :: List.map group_label (sorted_groups v)
  /\ Permutation (sorted_groups v) (groups v)
  /\ StronglySorted (fun a b => message_count b <= message_count a)
       (sorted_groups v)
  /\ (forall n,
        filter (fun e => message_count e =? n) (sorted_groups v)
        = filter (fun e => message_count e =? n) (groups v)).
Proof.
  split; [reflexivity|]. split; [apply sorted_groups_perm|].
  split; [apply sorted_groups_desc | apply sorted_groups_stable].
Qed.

Lemma sorted_by_date_perm (l : list NotificationData) :
  Permutation (sorted_by_date l) l.
Proof. apply sorted_reverse_perm. Qed.

Lemma sorted_by_date_desc (l : list NotificationData) :
  StronglySorted (fun a b => str_ltb (date a) (date b) = false)
    (sorted_by_date l).
Proof.
  exact (sorted_reverse_sorted _ _ str_ltb date str_ltb_asym
           str_ltb_negtrans l).
Qed.

Lemma sorted_by_date_stable (l : list NotificationData) (d : str) :
  filter (fun notif => str_eqb (date notif) d) (sorted_by_date l)
  = filter (fun notif => str_eqb (date notif) d) l.
Proof.
  pose proof (sorted_reverse_stable _ _ str_ltb date str_ltb_negtrans d l)
    as S.
  rewrite (filter_ext _ (fun notif => str_eqb (date notif) d)) in S
    by (intros e; apply str_key_equiv).
  rewrite (filter_ext (fun a => key_equiv str_ltb d (date a))
             (fun notif => str_eqb (date notif) d)) in S
    by (intros e; apply str_key_equiv).
  exact S.
Qed.

(** C10.  With an empty search text [filter_messages] shows the selected
    notifications sorted by date, latest first (equal dates in the order
    of the selection), as [update_message_list] does; with a search text it shows the matching ones in the order of
    the selection, unsorted.  The two views of one selection can
    therefore differ in order, as they do for two notifications with
    the same text received on successive days. *)
Theorem message_views :
  (forall (py : PyText) (v : Viewer),
     current_displayed_messages (filter_messages v)
     = match lower (msg_search_var v) with
       | [] => sorted_by_date (selected_messages v)
       | search_text =>
           filter (fun notif => contains (lower (message notif)) search_text)
             (selected_messages v)
       end
     /\ msg_tree (filter_messages v)
        = message_rows (current_displayed_messages (filter_messages v)))
  /\ (forall v : Viewer,
        current_displayed_messages (update_message_list v)
        = sorted_by_date (selected_messages v))
  /\ (forall l : list NotificationData,
        Permutation (sorted_by_date l) l
        /\ StronglySorted (fun a b => str_ltb (date a) (date b) = false)
             (sorted_by_date l)
        /\ forall d,
             filter (fun notif => str_eqb (date notif) d) (sorted_by_date l)
             = filter (fun notif => str_eqb (date notif) d) l)
  /\ (let searched :=
        @filter_messages Fixture.ascii_text
          (Fixture.with_msg_search Fixture.inbox (u "HELLO")) in
      let unsearched := @filter_messages Fixture.ascii_text Fixture.inbox in
      Permutation (current_displayed_messages searched)
        (current_displayed_messages unsearched)
      /\ current_displayed_messages searched
         = selected_messages Fixture.inbox
      /\ current_displayed_messages unsearched
         = rev (selected_messages Fixture.inbox)
      /\ current_displayed_messages searched
         <> current_displayed_messages unsearched).
Proof.
  split; [|split; [|split]].
  - intros py v. unfold filter_messages.
    destruct (lower (msg_search_var v)); split; reflexivity.
  - reflexivity.
  - intros l. split; [apply sorted_by_date_perm|].
    split; [apply sorted_by_date_desc | apply sorted_by_date_stable].
  - cbv zeta. split; [|split; [|split]].
    + vm_compute. apply perm_swap.
    + vm_compute. reflexivity.
    + vm_compute. reflexivity.
    + vm_compute. intros E. inversion E.
Qed.

(* ================================================================== *)
(** ** Loading and tailing *)

Section LoadingFacts.
Context {py : PyText} {ut : Utils}.

(** What an incremental read installs when the file can be read: the
    lines beyond those already held are appended, the extractor is run on
    the empty text, and the size is recorded. *)
Lemma load_append_result (fs : FileSystem) (r : bool) (v : Viewer)
    (p : Path) (f : FileOnDisk) (text : str) :
  fs p = Some f ->
  decoded f = Some text ->
  load_log_file fs r v p true
  = (let logs :=
       current_logs v
       ++ skipn (length (current_logs v)) (splitlines_keepends text) in
     let notifs := notifications v ++ parse_notifications [] in
     update_group_list
       (set_loaded (set_current_log_file v p) (st_size f) logs notifs
          (organize_notifications_by_group notifs (group_names v))),
     [IoStat p; IoRead p]).
Proof.
  intros Hf Hd. unfold load_log_file. rewrite Hf.
  cbn [negb]. rewrite andb_false_r. cbn [andb]. rewrite Hd.
  cbn [current_logs notifications group_names set_current_log_file].
  rewrite (skipn_all2 (n := length (current_logs v ++ _))).
  - reflexivity.
  - rewrite length_app, length_skipn. lia.
Qed.

(** An incremental read never adds more than what the extractor finds
    in the empty text, whatever was appended to the file. *)
Lemma load_append_notifications (fs : FileSystem) (r : bool) (v : Viewer)
    (p : Path) (f : FileOnDisk) (text : str) :
  fs p = Some f ->
  decoded f = Some text ->
  notifications (fst (load_log_file fs r v p true))
  = notifications v ++ parse_notifications [].
Proof.
  intros Hf Hd. rewrite (load_append_result fs r v p f text Hf Hd).
  reflexivity.
Qed.

(** C7.  When the tail check finds the file at the size recorded by the
    last read, it leaves the viewer as it is and reads nothing. *)
Theorem unchanged_size_is_noop (fs : FileSystem) (v : Viewer) (p : Path)
    (f : FileOnDisk) :
  current_log_file v = Some p ->
  fs p = Some f ->
  st_size f = last_file_size v ->
  fst (check_for_updates fs v) = v
  /\ forall q, ~ In (IoRead q) (snd (check_for_updates fs v)).
Proof.
  intros Hp Hf Hs. unfold check_for_updates.
  destruct (auto_update v); cbn [negb].
  - rewrite Hp, Hf, Hs, Z.eqb_refl. cbn. split; [reflexivity|].
    intros q [C|[C|[]]]; discriminate C.
  - cbn. split; [reflexivity | intros q []].
Qed.

(** C6, as amended.  When the tail check finds the file at a size other
    than the recorded one, smaller or larger, it makes an incremental
    read: the lines already held stay, the lines of the file beyond
    their number are appended, and the new size is recorded.  There is
    no full reload. *)
Theorem size_change_appends (fs : FileSystem) (v : Viewer) (p : Path)
    (f : FileOnDisk) (text : str) :
  auto_update v = true ->
  current_log_file v = Some p ->
  fs p = Some f ->
  st_size f <> last_file_size v ->
  decoded f = Some text ->
  fst (check_for_updates fs v) = fst (load_log_file fs true v p true)
  /\ current_logs (fst (check_for_updates fs v))
     = current_logs v
       ++ skipn (length (current_logs v)) (splitlines_keepends text)
  /\ last_file_size (fst (check_for_updates fs v)) = st_size f.
Proof.
  intros Ha Hp Hf Hs Hd. unfold check_for_updates.
  rewrite Ha, Hp, Hf. cbn [negb].
  apply Z.eqb_neq in Hs. rewrite Hs. cbn [negb].
  rewrite (load_append_result fs true v p f text Hf Hd).
  cbn. auto.
Qed.

End LoadingFacts.

(* ================================================================== *)
(** ** The properties on the concrete instance *)

Module Examples.
Import Fixture.

Lemma parse_line_plain (line : str) (flag : bool) :
  is_group_header (parse_log_line line flag) = false.
Proof. reflexivity. Qed.

(** The scenario of the specification: five lines tagged Network in a
    row, threshold three, give one header stating five and the five
    members. *)
Example five_network_lines :
  let shown :=
    lt_logs (log_tree (apply_filter
      (with_logs [network_line; network_line; network_line;
                  network_line; network_line]))) in
  List.map stated_count (firstn 1 shown) = [Some 5]
  /\ skipn 1 shown = repeat (parse_line network_line true) 5
  /\ List.map content (firstn 1 shown)
     = [header_prefix ++ u "Network] 5" ++ header_suffix].
Proof. vm_compute. repeat split. Qed.

(** A line removed by the search does not break a run: the run is
    counted on the filtered stream. *)
Example run_across_removed_line :
  let v := with_search
             (with_logs [network_line; network_line; other_line;
                         network_line])
             (u "PING") in
  List.map stated_count (lt_logs (log_tree (apply_filter v)))
  = [Some 3; None; None; None].
Proof. vm_compute. reflexivity. Qed.

Lemma headers_count_their_members_witness :
  let v := with_logs [network_line; network_line; network_line;
                      other_line] in
  WellGrouped (lt_logs (log_tree (apply_filter v)))
  /\ lt_logs (log_tree (apply_filter v))
     = flat_map
         (fun run =>
            (if GROUP_COLLAPSE_THRESHOLD <=? length (snd run)
             then [make_header (fst run) (length (snd run))]
             else [])
            ++ snd run)
         (runs_of v)
  /\ Forall (fun run => Forall (fun m => is_group_header m = false) (snd run))
       (runs_of v)
  /\ Forall (mark_fits (lt_logs (log_tree (apply_filter v))))
       (lt_marks (log_tree (apply_filter v))).
Proof.
  exact (headers_count_their_members
           (with_logs [network_line; network_line; network_line;
                       other_line])
           parse_line_plain eq_refl).
Defined.

Lemma headers_removed_is_filtered_witness :
  let v := with_logs [network_line; network_line; network_line;
                      other_line] in
  filter is_plain (lt_logs (log_tree (apply_filter v)))
  = List.map (parsed v) (filtered_lines v).
Proof.
  exact (headers_removed_is_filtered
           (with_logs [network_line; network_line; network_line;
                       other_line])
           parse_line_plain).
Defined.

Lemma search_tests_raw_line_witness :
  let v := with_search (with_logs [other_line; long_line]) (u "Needle") in
  contains (lower (content (parse_log_line long_line true)))
    (lower (search_var v)) = false
  /\ In (parse_log_line long_line (collapse_long_lines v))
       (lt_logs (log_tree (apply_filter v)))
  /\ search_rejects (lower (search_var v)) other_line = true
  /\ lt_logs (log_tree (apply_filter v)) = collapse_pass v [long_line].
Proof.
  split; [vm_compute; reflexivity|].
  split.
  - apply (proj2 (proj2 (search_tests_raw_line
             (with_search (with_logs [other_line; long_line]) (u "Needle"))
             long_line))).
    + right. left. reflexivity.
    + vm_compute. reflexivity.
    + vm_compute. reflexivity.
  - split.
    + rewrite (proj1 (search_tests_raw_line
                 (with_search (with_logs [other_line; long_line])
                    (u "Needle"))
                 other_line)).
      vm_compute. reflexivity.
    + rewrite (proj1 (proj2 (search_tests_raw_line
                 (with_search (with_logs [other_line; long_line])
                    (u "Needle"))
                 other_line))).
      reflexivity.
Defined.

Lemma run_emission_witness :
  let v := with_logs [other_line; network_line; network_line;
                      network_line; other_line] in
  lt_logs (log_tree (apply_filter v))
  = collapse_pass v [other_line]
    ++ emitted_run network_line
         (List.map (parsed v) [network_line; network_line; network_line])
    ++ collapse_pass v [other_line].
Proof.
  apply (run_emission
           (with_logs [other_line; network_line; network_line;
                       network_line; other_line])
           [other_line] network_line [network_line; network_line]
           [other_line]).
  - reflexivity.
  - vm_compute. lia.
  - vm_compute. reflexivity.
  - repeat constructor.
  - right. vm_compute. reflexivity.
  - right. vm_compute. reflexivity.
Defined.

(** C4, as the specification states it, fails on three blank lines in a
    row: they share the empty content key and there are as many of them
    as the threshold, yet they are displayed without a header. *)
Lemma blank_lines_not_collapsed :
  ~ run_emission_by_signature (with_logs [lf; lf; lf]).
Proof.
  intros H.
  specialize (H [] lf [lf; lf] []).
  assert (E : lt_logs (log_tree (apply_filter (with_logs [lf; lf; lf])))
              = collapse_pass (with_logs [lf; lf; lf]) []
                ++ emitted_run lf
                     (List.map (parsed (with_logs [lf; lf; lf]))
                        [lf; lf; lf])
                ++ collapse_pass (with_logs [lf; lf; lf]) []).
  { apply H.
    - reflexivity.
    - vm_compute. lia.
    - vm_compute. reflexivity.
    - repeat constructor.
    - left. reflexivity.
    - left. reflexivity. }
  vm_compute in E. discriminate E.
Qed.

Lemma unchanged_size_is_noop_witness :
  fst (check_for_updates (one_file 14 long_text) loaded_long) = loaded_long
  /\ forall q,
       ~ In (IoRead q)
           (snd (check_for_updates (one_file 14 long_text) loaded_long)).
Proof.
  apply (unchanged_size_is_noop (one_file 14 long_text) loaded_long the_log
           {| st_size := 14; decoded := Some long_text |}).
  - vm_compute. reflexivity.
  - vm_compute. reflexivity.
  - vm_compute. reflexivity.
Defined.

Lemma size_change_appends_witness :
  let fs := one_file 4 rotated_text in
  fst (check_for_updates fs loaded_long)
  = fst (load_log_file fs true loaded_long the_log true)
  /\ current_logs (fst (check_for_updates fs loaded_long))
     = current_logs loaded_long
       ++ skipn (length (current_logs loaded_long))
            (splitlines_keepends rotated_text)
  /\ last_file_size (fst (check_for_updates fs loaded_long)) = 4%Z.
Proof.
  apply (size_change_appends (one_file 4 rotated_text) loaded_long the_log
           {| st_size := 4; decoded := Some rotated_text |} rotated_text).
  - vm_compute. reflexivity.
  - vm_compute. reflexivity.
  - vm_compute. reflexivity.
  - vm_compute. lia.
  - reflexivity.
Defined.

(** C6, as the specification states it, fails when the three-line log is
    replaced by a one-line file: the tail check keeps the three old
    lines, a full reload would hold the one new line. *)
Lemma shrunken_file_not_reloaded :
  ~ shrink_triggers_full_reload (one_file 4 rotated_text) loaded_long.
Proof.
  intros H.
  specialize (H the_log {| st_size := 4; decoded := Some rotated_text |}).
  assert (E : fst (check_for_updates (one_file 4 rotated_text) loaded_long)
              = fst (full_reload (one_file 4 rotated_text) true loaded_long
                       the_log)).
  { apply H.
    - vm_compute. reflexivity.
    - vm_compute. reflexivity.
    - vm_compute. reflexivity.
    - vm_compute. reflexivity. }
  apply (f_equal current_logs) in E. vm_compute in E. discriminate E.
Qed.

(** C1.  The viewer has loaded a one-line log; a line holding a
    notification is then appended to the file.  The tail check appends
    the new line to [current_logs] but hands the extractor the empty
    text, so [notifications] stays empty although the appended text
    holds one notification. *)
Theorem tail_read_drops_notification :
  let fs := one_file 15 grown_text in
  let v' := fst (check_for_updates fs loaded_short) in
  notifications loaded_short = []
  /\ parse_notifications (u "@hello" ++ lf) = [note "" "hello"]
  /\ current_logs v' = splitlines_keepends grown_text
  /\ notifications v' = []
  /\ ~ append_extracts_suffix fs loaded_short the_log short_text
         (u "@hello" ++ lf).
Proof.
  cbv zeta. split; [|split; [|split; [|split]]];
    try (vm_compute; reflexivity).
  intros H.
  specialize (H {| st_size := 15; decoded := Some grown_text |}
                eq_refl eq_refl eq_refl).
  vm_compute in H. discriminate H.
Qed.

End Examples.

(* ================================================================== *)
(** ** Lines of a text *)

Lemma list_ind2 (A : Type) (P : list A -> Prop) :
  P [] ->
  (forall x, P [x]) ->
  (forall x y l, P l -> P (y :: l) -> P (x :: y :: l)) ->
  forall l, P l.
Proof.
  intros H0 H1 H2 l.
  assert (H : P l /\ forall x, P (x :: l)); [|exact (proj1 H)].
  induction l as [|y l [IHl IHc]]; split; auto.
Qed.

Lemma splitlines_from_nil (cur : str) :
  splitlines_from cur [] = match cur with [] => [] | _ :: _ => [cur] end.
Proof. reflexivity. Qed.

Lemma splitlines_from_snoc_nil (cur : str) (c : char) :
  splitlines_from (cur ++ [c]) [] = [cur ++ [c]].
Proof.
  rewrite splitlines_from_nil. destruct (cur ++ [c]) eqn:E; [|reflexivity].
  destruct cur; discriminate E.
Qed.

Lemma splitlines_from_cons (cur : str) (c : char) (rest : str) :
  splitlines_from cur (c :: rest)
  = if N.eqb c 13 then
      match rest with
      | d :: rest' =>
          if N.eqb d 10
          then (cur ++ [c; d]) :: splitlines_from [] rest'
          else (cur ++ [c]) :: splitlines_from [] rest
      | [] => (cur ++ [c]) :: splitlines_from [] rest
      end
    else if is_linebreak c
    then (cur ++ [c]) :: splitlines_from [] rest
    else splitlines_from (cur ++ [c]) rest.
Proof. reflexivity. Qed.

(** Splitting keeps every character: the lines put end to end are the
    text, after the line under construction. *)
Lemma splitlines_from_concat (s : str) :
  forall cur, concat (splitlines_from cur s) = cur ++ s.
Proof.
  induction s as [|x|x y l IHl IHc] using list_ind2; intros cur.
  - rewrite splitlines_from_nil. destruct cur; cbn [concat];
      rewrite ?app_nil_r; reflexivity.
  - rewrite splitlines_from_cons, splitlines_from_nil,
      splitlines_from_snoc_nil.
    destruct (N.eqb x 13), (is_linebreak x); cbn [concat];
      rewrite ?app_nil_r; reflexivity.
  - rewrite splitlines_from_cons.
    destruct (N.eqb x 13).
    + destruct (N.eqb y 10); cbn [concat].
      * rewrite IHl. cbn [app]. rewrite <- app_assoc. reflexivity.
      * rewrite IHc. cbn [app]. rewrite <- app_assoc. reflexivity.
    + destruct (is_linebreak x); cbn [concat].
      * rewrite IHc. cbn [app]. rewrite <- app_assoc. reflexivity.
      * rewrite IHc, <- app_assoc. reflexivity.
Qed.

Lemma splitlines_from_nonempty (s : str) :
  forall cur, Forall (fun l => l <> []) (splitlines_from cur s).
Proof.
  assert (Hsnoc : forall (cur : str) (t : str), t <> [] -> cur ++ t <> []).
  { intros cur t Ht E. apply app_eq_nil in E. tauto. }
  induction s as [|x|x y l IHl IHc] using list_ind2; intros cur.
  - rewrite splitlines_from_nil. destruct cur; repeat constructor.
    discriminate.
  - rewrite splitlines_from_cons, splitlines_from_nil,
      splitlines_from_snoc_nil.
    destruct (N.eqb x 13), (is_linebreak x); repeat constructor;
      apply Hsnoc; discriminate.
  - rewrite splitlines_from_cons.
    destruct (N.eqb x 13).
    + destruct (N.eqb y 10); constructor;
        try (apply Hsnoc; discriminate); auto.
    + destruct (is_linebreak x); [constructor|]; auto.
      apply Hsnoc; discriminate.
Qed.

(** A text that ends on a line boundary splits apart from what follows
    it. *)
Lemma splitlines_from_app (a b : str) :
  a <> [] ->
  is_linebreak (last a 0%N) = true ->
  (last a 0%N = 13%N -> hd_error b <> Some 10%N) ->
  forall cur,
    splitlines_from cur (a ++ b)
    = splitlines_from cur a ++ splitlines_from [] b.
Proof.
  induction a as [|x|x y l IHl IHc] using list_ind2;
    intros Hne Hbr Hcr cur.
  - congruence.
  - cbn [last] in Hbr, Hcr. cbn [app].
    rewrite (splitlines_from_cons cur x []), splitlines_from_nil.
    rewrite splitlines_from_cons. rewrite Hbr.
    destruct (N.eqb_spec x 13) as [E|E]; [|reflexivity].
    destruct b as [|d b']; [reflexivity|].
    destruct (N.eqb_spec d 10) as [E'|E']; [|reflexivity].
    exfalso. apply (Hcr E). subst d. reflexivity.
  - change (last (x :: y :: l) 0%N) with (last (y :: l) 0%N) in Hbr, Hcr.
    change ((x :: y :: l) ++ b) with (x :: y :: (l ++ b)).
    rewrite (splitlines_from_cons cur x (y :: l ++ b)).
    rewrite (splitlines_from_cons cur x (y :: l)).
    assert (Hc : forall c, splitlines_from c (y :: l ++ b)
                           = splitlines_from c (y :: l)
                             ++ splitlines_from [] b).
    { intros c. apply (IHc ltac:(discriminate) Hbr Hcr c). }
    assert (Hl : splitlines_from [] (l ++ b)
                 = splitlines_from [] l ++ splitlines_from [] b).
    { destruct l as [|z l']; [reflexivity|].
      apply IHl; [discriminate | exact Hbr | exact Hcr]. }
    destruct (N.eqb x 13).
    + destruct (N.eqb y 10).
      * rewrite Hl. reflexivity.
      * rewrite Hc. reflexivity.
    + destruct (is_linebreak x); rewrite Hc; reflexivity.
Qed.

Lemma splitlines_keepends_app (old appended : str) :
  ends_on_boundary old appended ->
  splitlines_keepends (old ++ appended)
  = splitlines_keepends old ++ splitlines_keepends appended.
Proof.
  intros [->|[Hbr Hcr]]; [reflexivity|].
  destruct old as [|x old']; [reflexivity|].
  apply splitlines_from_app; [discriminate | exact Hbr | exact Hcr].
Qed.

(* ================================================================== *)
(** ** Loading, further properties *)

Lemma viewer_ext (a b : Viewer) :
  current_logs a = current_logs b ->
  notifications a = notifications b ->
  groups a = groups b ->
  current_displayed_messages a = current_displayed_messages b ->
  auto_update a = auto_update b ->
  last_file_size a = last_file_size b ->
  current_log_file a = current_log_file b ->
  collapse_long_lines a = collapse_long_lines b ->
  collapse_repeated_tags a = collapse_repeated_tags b ->
  group_names a = group_names b ->
  search_var a = search_var b ->
  show_error a = show_error b ->
  show_warning a = show_warning b ->
  show_debug a = show_debug b ->
  show_info a = show_info b ->
  log_tree a = log_tree b ->
  stats_label a = stats_label b ->
  group_combo a = group_combo b ->
  msg_search_var a = msg_search_var b ->
  msg_tree a = msg_tree b ->
  msg_stats_label a = msg_stats_label b ->
  a = b.
Proof. destruct a, b; cbn; intros; subst; reflexivity. Qed.

Section MoreLoadingFacts.
Context {py : PyText} {ut : Utils}.

Lemma apply_filter_unfold (v : Viewer) :
  apply_filter v
  = set_log_view v
      {| is_virtual := is_virtual (log_tree v);
         lt_logs := fst (fst (filter_pass v));
         lt_marks := snd (fst (filter_pass v)) |}
      (stats_text (snd (filter_pass v)) (length (current_logs v))).
Proof.
  unfold apply_filter. destruct (filter_pass v) as [[logs marks] shown].
  reflexivity.
Qed.

(** The pass reads the lines, the search text, the level boxes, the two
    collapse options and the kind of log widget, nothing else. *)
Lemma filter_pass_ext (a b : Viewer) :
  current_logs a = current_logs b ->
  search_var a = search_var b ->
  show_filters_of a = show_filters_of b ->
  collapse_long_lines a = collapse_long_lines b ->
  collapse_repeated_tags a = collapse_repeated_tags b ->
  is_virtual (log_tree a) = is_virtual (log_tree b) ->
  filter_pass a = filter_pass b.
Proof.
  intros Hl Hs Hf Hcl Hcr Hv.
  assert (Hstep : forall st line,
            filter_step a (lower (search_var a)) st line
            = filter_step b (lower (search_var b)) st line).
  { intros st line. unfold filter_step, accept_line.
    rewrite Hs, Hf, Hcl, Hcr, Hv. reflexivity. }
  assert (Hfold : forall ls st,
            fold_left (filter_step a (lower (search_var a))) ls st
            = fold_left (filter_step b (lower (search_var b))) ls st).
  { induction ls as [|l ls IH]; intros st; [reflexivity|].
    cbn [fold_left]. rewrite Hstep. apply IH. }
  unfold filter_pass. rewrite Hl, Hfold. unfold flush_last.
  rewrite Hcr, Hv. reflexivity.
Qed.

Lemma load_full_result (fs : FileSystem) (r : bool) (v : Viewer)
    (p : Path) (f : FileOnDisk) (text : str) :
  fs p = Some f ->
  decoded f = Some text ->
  is_large_file (st_size f) && negb r = false ->
  load_log_file fs r v p false
  = (let notifs := parse_notifications text in
     update_message_list
       (update_group_list
          (apply_filter
             (set_loaded (set_current_log_file v p) (st_size f)
                (splitlines_keepends text) notifs
                (organize_notifications_by_group notifs (group_names v))))),
     [IoStat p; IoRead p]).
Proof.
  intros Hf Hd Hl. unfold load_log_file. rewrite Hf. cbn [negb].
  rewrite andb_true_r, Hl, Hd. reflexivity.
Qed.

Lemma load_failure_cases (fs : FileSystem) (r : bool) (v : Viewer)
    (p : Path) (append : bool) :
  (fs p = None
   \/ exists f, fs p = Some f
        /\ (decoded f = None
            \/ is_large_file (st_size f) && negb append && negb r = true)) ->
  fst (load_log_file fs r v p append) = set_current_log_file v p.
Proof.
  unfold load_log_file. intros [->|(f & -> & [Hd|Hl])]; [reflexivity| |].
  - rewrite Hd.
    destruct (is_large_file (st_size f) && negb append && negb r);
      reflexivity.
  - rewrite Hl. reflexivity.
Qed.


(** X4.  The tail check reads the file only when auto-update is on, the
    file exists and its size differs from the recorded one; the file it
    reads is the current log file. *)
Theorem read_only_on_size_change (fs : FileSystem) (v : Viewer) (q : Path) :
  In (IoRead q) (snd (check_for_updates fs v)) ->
  auto_update v = true
  /\ current_log_file v = Some q
  /\ exists f, fs q = Some f /\ st_size f <> last_file_size v.
Proof.
  unfold check_for_updates.
  destruct (auto_update v); cbn [negb]; [|intros []].
  destruct (current_log_file v) as [p|]; [|intros []].
  destruct (fs p) as [f|] eqn:Hf.
  - destruct (Z.eqb_spec (st_size f) (last_file_size v)) as [E|E];
      cbn [negb].
    + intros [C|[C|[]]]; discriminate C.
    + unfold load_log_file. rewrite Hf.
      destruct (is_large_file (st_size f) && negb true && negb true),
        (decoded f); cbn;
        intros H; repeat (destruct H as [H|H]; try discriminate H);
        try contradiction;
        injection H as <-; split; auto; split; auto; exists f; auto.
  - intros [C|[]]. discriminate C.
Qed.

Lemma check_for_updates_grows (fs : FileSystem) (v : Viewer) :
  exists more_lines more_notes,
    current_logs (fst (check_for_updates fs v))
    = current_logs v ++ more_lines
    /\ notifications (fst (check_for_updates fs v))
       = notifications v ++ more_notes.
Proof.
  assert (Hsame : exists more_lines more_notes,
            current_logs v = current_logs v ++ more_lines
            /\ notifications v = notifications v ++ more_notes).
  { exists [], []. rewrite !app_nil_r. auto. }
  unfold check_for_updates.
  destruct (auto_update v); cbn [negb]; [|exact Hsame].
  destruct (current_log_file v) as [p|]; [|exact Hsame].
  destruct (fs p) as [f|] eqn:Hf; [|exact Hsame].
  destruct (negb (st_size f =? last_file_size v)%Z); [|exact Hsame].
  destruct (decoded f) as [text|] eqn:Hd.
  - rewrite (load_append_result fs true v p f text Hf Hd). cbn.
    eexists _, _. split; reflexivity.
  - pose proof (load_failure_cases fs true v p true
                  (or_intror (ex_intro _ f (conj Hf (or_introl Hd))))) as E.
    destruct (load_log_file fs true v p true) as [v' io].
    cbn [fst] in *. subst v'. exact Hsame.
Qed.

(** X5.  Over any run of tail checks, whatever becomes of the file in
    between (growth, truncation, replacement, removal), the lines and
    the notifications held at the start stay in place at the front of
    what is held at the end: a tail check only ever appends. *)
Theorem tail_checks_only_append (snapshots : list FileSystem) (v : Viewer) :
  exists more_lines more_notes,
    current_logs (tail_checks snapshots v) = current_logs v ++ more_lines
    /\ notifications (tail_checks snapshots v)
       = notifications v ++ more_notes.
Proof.
  revert v. induction snapshots as [|fs rest IH]; intros v.
  - exists [], []. rewrite !app_nil_r. split; reflexivity.
  - unfold tail_checks. cbn [fold_left].
    destruct (check_for_updates_grows fs v) as (l1 & n1 & Hl1 & Hn1).
    destruct (IH (fst (check_for_updates fs v))) as (l2 & n2 & Hl2 & Hn2).
    unfold tail_checks in Hl2, Hn2.
    exists (l1 ++ l2), (n1 ++ n2).
    rewrite Hl2, Hn2, Hl1, Hn1, <- !app_assoc. split; reflexivity.
Qed.

Lemma skipn_length_app (A : Type) (a b : list A) :
  skipn (length a) (a ++ b) = b.
Proof. induction a as [|x a IH]; [reflexivity | exact IH]. Qed.

Lemma tail_read_lines (fs : FileSystem) (v : Viewer) (p : Path)
    (f : FileOnDisk) (old appended : str) :
  auto_update v = true ->
  current_log_file v = Some p ->
  fs p = Some f ->
  st_size f <> last_file_size v ->
  decoded f = Some (old ++ appended) ->
  current_logs v = splitlines_keepends old ->
  ends_on_boundary old appended ->
  fst (check_for_updates fs v) = fst (load_log_file fs true v p true)
  /\ current_logs (fst (check_for_updates fs v))
     = splitlines_keepends (old ++ appended).
Proof.
  intros Ha Hp Hf Hs Hd Hlogs Hb. unfold check_for_updates.
  rewrite Ha, Hp, Hf. cbn [negb].
  apply Z.eqb_neq in Hs. rewrite Hs. cbn [negb].
  rewrite (load_append_result fs true v p f _ Hf Hd). cbn [fst].
  split; [reflexivity|].
  cbn. rewrite Hlogs, (splitlines_keepends_app old appended Hb).
  rewrite skipn_length_app. reflexivity.
Qed.

(** X1.  When the lines held are those of a text that ended on a line
    boundary and the file has since grown by appending, a tail check
    leaves in [current_logs] exactly the lines of the whole file, the
    same as a full reload would install. *)
Theorem tail_read_holds_all_lines (fs : FileSystem) (v : Viewer) (p : Path)
    (f : FileOnDisk) (old appended : str) :
  auto_update v = true ->
  current_log_file v = Some p ->
  fs p = Some f ->
  st_size f <> last_file_size v ->
  decoded f = Some (old ++ appended) ->
  current_logs v = splitlines_keepends old ->
  ends_on_boundary old appended ->
  current_logs (fst (check_for_updates fs v))
  = splitlines_keepends (old ++ appended)
  /\ current_logs (fst (check_for_updates fs v))
     = current_logs (fst (full_reload fs true v p)).
Proof.
  intros Ha Hp Hf Hs Hd Hlogs Hb.
  destruct (tail_read_lines fs v p f old appended Ha Hp Hf Hs Hd Hlogs Hb)
    as [_ Hl].
  split; [exact Hl|]. rewrite Hl. unfold full_reload.
  rewrite (load_full_result fs true v p f _ Hf Hd)
    by (cbn [negb]; apply andb_false_r).
  cbv zeta. cbn [fst]. rewrite apply_filter_unfold. reflexivity.
Qed.


End MoreLoadingFacts.

Section ReloadFacts.
Context {py : PyText} {ut : Utils}.

Lemma existsb_str_eqb_in (x : str) (l : list str) :
  existsb (str_eqb x) l = true <-> In x l.
Proof.
  rewrite existsb_exists. split.
  - intros (y & Hy & E). apply str_eqb_eq in E. subst. exact Hy.
  - intros H. exists x. split; [exact H | apply str_eqb_refl].
Qed.

(** The selector's text is one of its entries once the list was
    updated. *)
Lemma update_group_list_text_in (v : Viewer) :
  In (cb_text (group_combo (update_group_list v)))
     (cb_values (group_combo (update_group_list v))).
Proof.
  unfold update_group_list. cbn [group_combo set_group_combo cb_text
                                  cb_values].
  destruct (existsb (str_eqb (cb_text (group_combo v)))
              (group_list_of v)) eqn:E.
  - apply existsb_str_eqb_in in E. exact E.
  - unfold group_list_of. left. reflexivity.
Qed.

(** Updating the selector again, the groups being the same, changes
    nothing. *)
Lemma update_group_list_again (v w : Viewer) :
  groups w = groups v ->
  cb_text (group_combo w) = cb_text (group_combo (update_group_list v)) ->
  group_combo (update_group_list w) = group_combo (update_group_list v).
Proof.
  intros Hg Ht.
  assert (Hl : group_list_of w = group_list_of v).
  { unfold group_list_of, sorted_groups. rewrite Hg. reflexivity. }
  pose proof (update_group_list_text_in v) as Hin.
  unfold update_group_list at 1.
  cbn [group_combo set_group_combo]. rewrite Hl, Ht.
  change (cb_values (group_combo (update_group_list v)))
    with (group_list_of v) in Hin.
  apply existsb_str_eqb_in in Hin. rewrite Hin.
  reflexivity.
Qed.

Lemma selected_messages_ext (a b : Viewer) :
  group_combo a = group_combo b ->
  groups a = groups b ->
  notifications a = notifications b ->
  selected_messages a = selected_messages b.
Proof.
  intros Hc Hg Hn. unfold selected_messages. rewrite Hc, Hg, Hn.
  reflexivity.
Qed.

(** What the end of a full load puts on the widgets depends on the
    attributes and input widgets only, and on the selector as the update
    of the group list leaves it. *)
Lemma refresh_views_ext (a b : Viewer) :
  current_logs a = current_logs b ->
  notifications a = notifications b ->
  groups a = groups b ->
  auto_update a = auto_update b ->
  last_file_size a = last_file_size b ->
  current_log_file a = current_log_file b ->
  collapse_long_lines a = collapse_long_lines b ->
  collapse_repeated_tags a = collapse_repeated_tags b ->
  group_names a = group_names b ->
  search_var a = search_var b ->
  show_filters_of a = show_filters_of b ->
  msg_search_var a = msg_search_var b ->
  is_virtual (log_tree a) = is_virtual (log_tree b) ->
  group_combo (update_group_list a) = group_combo (update_group_list b) ->
  update_message_list (update_group_list (apply_filter a))
  = update_message_list (update_group_list (apply_filter b)).
Proof.
  intros Hlogs Hn Hg Hau Hsz Hf Hcl Hcr Hgn Hs Hsf Hms Hv Hcombo.
  assert (Hpass : filter_pass a = filter_pass b)
    by (apply filter_pass_ext; assumption).
  assert (Hc : group_combo (update_group_list (apply_filter a))
               = group_combo (update_group_list (apply_filter b))).
  { rewrite !apply_filter_unfold. exact Hcombo. }
  assert (Hsel : selected_messages (update_group_list (apply_filter a))
                 = selected_messages (update_group_list (apply_filter b))).
  { apply selected_messages_ext; [exact Hc| |];
      rewrite !apply_filter_unfold; assumption. }
  unfold update_message_list. rewrite Hsel.
  injection Hsf as He Hw Hd Hi.
  apply viewer_ext;
    cbn [current_logs notifications groups
         current_displayed_messages auto_update last_file_size
         current_log_file collapse_long_lines collapse_repeated_tags
         group_names search_var show_error show_warning show_debug
         show_info log_tree stats_label group_combo msg_search_var
         msg_tree msg_stats_label set_message_view];
    try reflexivity; try exact Hc;
    rewrite !apply_filter_unfold;
    cbn [current_logs notifications groups
         current_displayed_messages auto_update last_file_size
         current_log_file collapse_long_lines collapse_repeated_tags
         group_names search_var show_error show_warning show_debug
         show_info log_tree stats_label group_combo msg_search_var
         msg_tree msg_stats_label update_group_list set_group_combo
         set_log_view];
    rewrite ?Hpass, ?Hv, ?Hlogs; try assumption; reflexivity.
Qed.

(** X6.  Loading the same file again, nothing else having changed,
    leaves the viewer exactly as the first load left it: a reload is
    idempotent, whether it succeeds or fails. *)
Theorem reload_is_idempotent (fs : FileSystem) (r : bool) (v : Viewer)
    (p : Path) :
  fst (full_reload fs r (fst (full_reload fs r v p)) p)
  = fst (full_reload fs r v p).
Proof.
  unfold full_reload.
  destruct (fs p) as [f|] eqn:Hf.
  - destruct (is_large_file (st_size f) && negb r) eqn:Hl.
    + assert (Hfail : forall w,
                fst (load_log_file fs r w p false)
                = set_current_log_file w p).
      { intros w. apply load_failure_cases. right. exists f.
        split; [exact Hf|]. right. cbn [negb]. rewrite andb_true_r.
        exact Hl. }
      rewrite !Hfail. reflexivity.
    + destruct (decoded f) as [text|] eqn:Hd.
      * rewrite (load_full_result fs r v p f text Hf Hd Hl).
        cbv zeta. cbn [fst].
        rewrite (load_full_result fs r _ p f text Hf Hd Hl).
        cbv zeta. cbn [fst].
        apply refresh_views_ext;
          try (rewrite ?apply_filter_unfold; reflexivity).
        apply update_group_list_again.
        -- rewrite ?apply_filter_unfold. reflexivity.
        -- rewrite ?apply_filter_unfold. reflexivity.
      * assert (Hfail : forall w,
                  fst (load_log_file fs r w p false)
                  = set_current_log_file w p).
        { intros w. apply load_failure_cases. right. exists f.
          split; [exact Hf|]. left. exact Hd. }
        rewrite !Hfail. reflexivity.
  - assert (Hfail : forall w,
              fst (load_log_file fs r w p false)
              = set_current_log_file w p).
    { intros w. apply load_failure_cases. left. exact Hf. }
    rewrite !Hfail. reflexivity.
Qed.

(** X7.  A full load keeps the text whole: the lines installed in
    [current_logs], put end to end, are the decoded text of the file,
    and none of them is empty. *)
Theorem loaded_lines_are_the_text (fs : FileSystem) (r : bool) (v : Viewer)
    (p : Path) (f : FileOnDisk) (text : str) :
  fs p = Some f ->
  decoded f = Some text ->
  is_large_file (st_size f) && negb r = false ->
  concat (current_logs (fst (load_log_file fs r v p false))) = text
  /\ Forall (fun line => line <> [])
       (current_logs (fst (load_log_file fs r v p false))).
Proof.
  intros Hf Hd Hl. rewrite (load_full_result fs r v p f text Hf Hd Hl).
  cbv zeta. cbn [fst]. rewrite apply_filter_unfold.
  cbn [current_logs update_message_list set_message_view update_group_list
       set_group_combo set_log_view set_loaded].
  split.
  - apply (splitlines_from_concat text []).
  - apply splitlines_from_nonempty.
Qed.

End ReloadFacts.

(* ================================================================== *)
(** ** The filter pass, further properties *)

Section MoreFilterFacts.
Context {py : PyText} {ut : Utils}.
Variable v : Viewer.

Lemma start_group_fields (b : bool) (st : FilterLoop) (t : option str)
    (c : str) (r : LogInfo) :
  filtered_count (start_group b st t c r) = filtered_count st + 1
  /\ current_tag (start_group b st t c r) = t
  /\ current_message_pattern (start_group b st t c r)
     = (if negb (truthy t) then Some c else None)
  /\ tag_group (start_group b st t c r) = [r].
Proof.
  unfold start_group. destruct (flush_in_loop b st). repeat split.
Qed.

(** With collapsing on, the counter goes up once per run started. *)
Lemma loop_count_runs (ls : list str) :
  collapse_repeated_tags v = true ->
  forall st,
    filtered_count (fold_left (accept_line v) ls st) + 1
    = filtered_count st
      + length (run_blocks v (current_tag st) (current_message_pattern st)
                  (tag_group st) ls).
Proof.
  intros Hc. induction ls as [|l ls IH]; intros st.
  - cbn. lia.
  - cbn [fold_left run_blocks]. unfold accept_line at 2. rewrite Hc.
    rewrite is_same_group_orb. fold (parsed v l).
    destruct (same_group_test (current_tag st) (current_message_pattern st)
                (line_tag_of l) (content_clean_of (parsed v l))).
    + rewrite IH. reflexivity.
    + rewrite IH.
      destruct (start_group_fields (is_virtual (log_tree v)) st
                  (line_tag_of l) (content_clean_of (parsed v l))
                  (parsed v l)) as (H1 & H2 & H3 & H4).
      rewrite H1, H2, H3, H4. cbn [length]. lia.
Qed.

(** With collapsing off, the loop appends each parsed line, counts it,
    and touches nothing else. *)
Lemma loop_plain_state (ls : list str) :
  collapse_repeated_tags v = false ->
  forall st,
    fold_left (accept_line v) ls st
    = {| filtered_logs := filtered_logs st ++ List.map (parsed v) ls;
         filtered_count := filtered_count st + length ls;
         current_tag := current_tag st;
         current_message_pattern := current_message_pattern st;
         tag_group_start := tag_group_start st;
         tag_group := tag_group st;
         tag_count := tag_count st;
         group_marks := group_marks st |}.
Proof.
  intros Hc. induction ls as [|l ls IH]; intros st.
  - cbn. rewrite app_nil_r, Nat.add_0_r. destruct st; reflexivity.
  - cbn [fold_left]. unfold accept_line at 2. rewrite Hc, IH.
    cbn [emit_plain filtered_logs filtered_count current_tag
         current_message_pattern tag_group_start tag_group tag_count
         group_marks List.map length].
    rewrite <- app_assoc. cbn [app]. f_equal. lia.
Qed.

(** X8.  The number [apply_filter] writes on the statistics label as
    lines shown is, with collapsing on, the number of runs of the
    filtered stream - every record that joins a run is left out of the
    count - and, with collapsing off, the number of lines that passed
    the filters.  The number of runs is at most the number of lines
    that passed. *)
Theorem statistics_count_runs :
  stats_label (apply_filter v)
  = stats_text
      (if collapse_repeated_tags v
       then length (runs_of v) - 1
       else length (filtered_lines v))
      (length (current_logs v))
  /\ length (runs_of v) - 1 <= length (filtered_lines v).
Proof.
  split.
  - rewrite apply_filter_unfold. cbn [stats_label set_log_view].
    f_equal. unfold filter_pass. cbn [snd]. rewrite loop_over_filtered.
    destruct (collapse_repeated_tags v) eqn:Hc.
    + pose proof (loop_count_runs (filter (keeps v) (current_logs v)) Hc
                    loop_start) as H.
      cbn [filtered_count current_tag current_message_pattern tag_group
           loop_start] in H.
      unfold runs_of, filtered_lines. lia.
    + rewrite (loop_plain_state _ Hc). reflexivity.
  - unfold runs_of. generalize (filtered_lines v) as ls.
    assert (H : forall ls t p g,
              length (run_blocks v t p g ls) <= S (length ls)).
    { induction ls as [|l ls IH]; intros t p g; cbn [run_blocks length].
      - lia.
      - case_test; [specialize (IH t p (g ++ [parsed v l])); lia|].
        cbn [length]. apply le_n_S, IH. }
    intros ls. specialize (H ls None None []). lia.
Qed.

(** X9.  With collapsing off, [apply_filter] passes the filtered lines
    through: the widget gets their parsed records in file order, no
    header and no group mark, and the statistics label counts them. *)
Theorem collapse_off_passes_through :
  collapse_repeated_tags v = false ->
  log_tree (apply_filter v)
  = {| is_virtual := is_virtual (log_tree v);
       lt_logs := List.map (parsed v) (filtered_lines v);
       lt_marks := [] |}
  /\ stats_label (apply_filter v)
     = stats_text (length (filtered_lines v)) (length (current_logs v)).
Proof.
  intros Hc. rewrite apply_filter_unfold.
  cbn [log_tree stats_label set_log_view].
  unfold filter_pass. rewrite loop_over_filtered.
  rewrite (loop_plain_state _ Hc). unfold flush_last. rewrite Hc.
  cbn. split; reflexivity.
Qed.

End MoreFilterFacts.

Section MoreRegexFacts.
Context {py : PyText}.

Lemma match_tag_body_sound (s t : str) :
  match_tag_body s = Some t ->
  exists post,
    s = t ++ 93%N :: post /\ t <> [] /\ forallb tag_char t = true.
Proof.
  revert t. induction s as [|c rest IH]; intros t; cbn [match_tag_body];
    [discriminate|].
  destruct (tag_char c) eqn:Hc; [|discriminate].
  destruct (match_tag_body rest) as [b|].
  - intros E. injection E as <-.
    destruct (IH b eq_refl) as (post & -> & _ & Hall).
    exists post. cbn [forallb app]. rewrite Hc, Hall.
    repeat split. discriminate.
  - destruct rest as [|d rest']; [discriminate|].
    destruct (N.eqb_spec d 93) as [->|]; [|discriminate].
    intros E. injection E as <-. exists rest'. cbn [forallb app].
    rewrite Hc. repeat split. discriminate.
Qed.

Lemma match_tag_body_complete (t post : str) :
  t <> [] -> forallb tag_char t = true ->
  match_tag_body (t ++ 93%N :: post) <> None.
Proof.
  induction t as [|c t IH]; intros Hne Hall; [congruence|].
  cbn [forallb] in Hall. apply andb_true_iff in Hall as [Hc Hall].
  cbn [app match_tag_body]. rewrite Hc.
  destruct t as [|c' t'].
  - cbn [app]. destruct (match_tag_body (93%N :: post)); [discriminate|].
    cbn. discriminate.
  - destruct (match_tag_body ((c' :: t') ++ 93%N :: post)) eqn:E.
    + discriminate.
    + exfalso. apply (IH ltac:(discriminate) Hall eq_refl).
Qed.

(** X10.  The tag search finds a tag exactly in the lines that hold a
    bracketed block of word and space characters, and the tag it
    returns is the non-empty body of such a block of the line. *)
Theorem tag_found_iff_bracketed_block (line : str) :
  (forall t,
     search_tag line = Some t ->
     exists pre post,
       line = pre ++ 91%N :: t ++ 93%N :: post
       /\ t <> [] /\ forallb tag_char t = true)
  /\ (search_tag line = None ->
      forall pre t post,
        t <> [] -> forallb tag_char t = true ->
        line <> pre ++ 91%N :: t ++ 93%N :: post).
Proof.
  split.
  - induction line as [|c rest IH]; intros t; cbn [search_tag];
      [discriminate|].
    destruct (N.eqb_spec c 91) as [->|Hc].
    + destruct (match_tag_body rest) as [b|] eqn:E.
      * intros R. injection R as <-.
        destruct (match_tag_body_sound rest b E) as (post & -> & Hne & Hall).
        exists [], post. repeat split; assumption.
      * intros R. destruct (IH t R) as (pre & post & -> & Hne & Hall).
        exists (91%N :: pre), post. repeat split; assumption.
    + intros R. destruct (IH t R) as (pre & post & -> & Hne & Hall).
      exists (c :: pre), post. repeat split; assumption.
  - intros Hnone pre t post Hne Hall ->. revert Hnone.
    induction pre as [|x pre IH]; cbn [app search_tag].
    + rewrite N.eqb_refl.
      destruct (match_tag_body (t ++ 93%N :: post)) eqn:E; [discriminate|].
      exfalso. exact (match_tag_body_complete t post Hne Hall E).
    + destruct (if N.eqb x 91
                then match_tag_body (pre ++ 91%N :: t ++ 93%N :: post)
                else None); [discriminate | exact IH].
Qed.

Lemma sub_digits_from_run (d b : str) (in_run : bool) :
  d <> [] -> forallb re_digit d = true ->
  sub_digits_from in_run (d ++ b)
  = (if in_run then [] else [78%N]) ++ sub_digits_from true b.
Proof.
  revert in_run. induction d as [|c d IH]; intros in_run Hne Hall;
    [congruence|].
  cbn [forallb] in Hall. apply andb_true_iff in Hall as [Hc Hall].
  cbn [app sub_digits_from]. rewrite Hc.
  destruct d as [|c' d'].
  - destruct in_run; reflexivity.
  - rewrite (IH true ltac:(discriminate) Hall).
    destruct in_run; reflexivity.
Qed.

Lemma sub_digits_from_swap (a d1 d2 b : str) :
  d1 <> [] -> d2 <> [] ->
  forallb re_digit d1 = true -> forallb re_digit d2 = true ->
  forall in_run,
    sub_digits_from in_run (a ++ d1 ++ b)
    = sub_digits_from in_run (a ++ d2 ++ b).
Proof.
  intros H1 H2 F1 F2.
  induction a as [|c a IH]; intros in_run.
  - cbn [app]. rewrite !sub_digits_from_run by assumption. reflexivity.
  - cbn [app sub_digits_from].
    destruct (re_digit c); [destruct in_run|]; rewrite IH; reflexivity.
Qed.

Lemma firstn_nonempty_digits (n : nat) (d : str) :
  forallb re_digit d = true ->
  forallb re_digit (firstn n d) = true.
Proof.
  revert n. induction d as [|c d IH]; intros [|n] H; try reflexivity.
  cbn [forallb firstn] in *. apply andb_true_iff in H as [Hc H].
  rewrite Hc, (IH n H). reflexivity.
Qed.

End MoreRegexFacts.

Section KeyFacts.
Context {py : PyText}.

Lemma sub_digits_from_nonempty (s : str) (in_run : bool) :
  in_run = false -> s <> [] -> sub_digits_from in_run s <> [].
Proof.
  intros -> Hne. destruct s as [|c s]; [congruence|].
  cbn [sub_digits_from]. destruct (re_digit c); discriminate.
Qed.

(** The content key of a record does not depend on the digits of a
    number in its content, the number keeping its length. *)
Lemma content_key_ignores_number (r1 r2 : LogInfo) (a d1 d2 b : str) :
  content r1 = a ++ d1 ++ b ->
  content r2 = a ++ d2 ++ b ->
  d1 <> [] ->
  forallb re_digit d1 = true ->
  forallb re_digit d2 = true ->
  length d1 = length d2 ->
  content_clean_of r1 = content_clean_of r2
  /\ content_clean_of r1 <> [].
Proof.
  intros E1 E2 Hne F1 F2 Hlen. unfold content_clean_of, sub_digits.
  split.
  - rewrite E1, E2. generalize 100 as n. intros n.
    rewrite !firstn_app, !Hlen.
    destruct (n - length a) as [|k] eqn:Ek.
    + reflexivity.
    + apply sub_digits_from_swap.
      * destruct d1; [congruence | discriminate].
      * destruct d2; [destruct d1; [congruence | discriminate]
                     | discriminate].
      * apply firstn_nonempty_digits, F1.
      * apply firstn_nonempty_digits, F2.
  - apply sub_digits_from_nonempty; [reflexivity|].
    rewrite E1. destruct a; [destruct d1; [congruence|]|]; discriminate.
Qed.

End KeyFacts.

Section KeyJoinFacts.
Context {py : PyText} {ut : Utils}.

(** X11.  Two untagged lines whose parsed contents differ only in the
    digits of one number of the same length are kept in one run: the
    second joins the first. *)
Theorem number_does_not_break_run (v : Viewer) (l1 l2 a d1 d2 b : str) :
  line_tag_of l1 = None ->
  line_tag_of l2 = None ->
  content (parsed v l1) = a ++ d1 ++ b ->
  content (parsed v l2) = a ++ d2 ++ b ->
  d1 <> [] ->
  forallb re_digit d1 = true ->
  forallb re_digit d2 = true ->
  length d1 = length d2 ->
  joins v l1 l2 = true.
Proof.
  intros T1 T2 E1 E2 Hne F1 F2 Hlen.
  destruct (content_key_ignores_number (parsed v l1) (parsed v l2)
              a d1 d2 b E1 E2 Hne F1 F2 Hlen) as [Hkey Hnonempty].
  unfold joins, signature_of. rewrite T1, T2, <- Hkey.
  destruct (content_clean_of (parsed v l1)); [congruence|].
  apply str_eqb_refl.
Qed.

End KeyJoinFacts.


(* ================================================================== *)
(** ** Group and message panels, further properties *)

Lemma str_eqb_neq_false (a b : str) : a <> b -> str_eqb a b = false.
Proof.
  intros Hne. destruct (str_eqb a b) eqn:E; [|reflexivity].
  apply str_eqb_eq in E. contradiction.
Qed.

Lemma dict_get_set_same (V : Type) (d : dict V) (k : str) (x : V) :
  dict_get (dict_set d k x) k = Some x.
Proof.
  induction d as [|[k' y] d IH]; cbn [dict_set dict_get].
  - rewrite str_eqb_refl. reflexivity.
  - destruct (str_eqb k k') eqn:E; cbn [dict_get]; rewrite E;
      [reflexivity | exact IH].
Qed.

Lemma dict_get_set_other (V : Type) (d : dict V) (k k' : str) (x : V) :
  k' <> k -> dict_get (dict_set d k x) k' = dict_get d k'.
Proof.
  intros Hne. induction d as [|[k0 y] d IH]; cbn [dict_set dict_get].
  - apply str_eqb_neq_false in Hne. rewrite Hne. reflexivity.
  - destruct (str_eqb k k0) eqn:E; cbn [dict_get].
    + apply str_eqb_eq in E. subst k0.
      apply str_eqb_neq_false in Hne. rewrite Hne. reflexivity.
    + rewrite IH. reflexivity.
Qed.

Lemma dict_keys_set (V : Type) (d : dict V) (k : str) (x y : V) :
  dict_get d k = Some y -> dict_keys (dict_set d k x) = dict_keys d.
Proof.
  induction d as [|[k' z] d IH]; cbn [dict_set dict_get dict_keys List.map fst];
    [discriminate|].
  destruct (str_eqb k k'); [reflexivity|].
  intros H. cbn [List.map fst]. f_equal. apply IH, H.
Qed.

Lemma messages_set (d : dict GroupInfo) (k : str) (g g' : GroupInfo) :
  dict_get d k = Some g -> messages g' = messages g ->
  List.map (fun e => messages (snd e)) (dict_set d k g')
  = List.map (fun e => messages (snd e)) d.
Proof.
  intros Hg Hm. induction d as [|[k' z] d IH];
    cbn [dict_set dict_get List.map snd] in *; [discriminate|].
  destruct (str_eqb k k').
  - injection Hg as ->. cbn [List.map snd]. rewrite Hm. reflexivity.
  - cbn [List.map snd]. f_equal. apply IH, Hg.
Qed.

Lemma dict_get_nth (V : Type) (d : dict V) (i : nat) (k : str) (x : V) :
  NoDup (dict_keys d) ->
  nth_error d i = Some (k, x) ->
  dict_get d k = Some x.
Proof.
  revert i. induction d as [|[k' y] d IH]; intros i Hnd Hn.
  - destruct i; discriminate.
  - cbn [dict_keys List.map fst] in Hnd. inversion Hnd as [|? ? Hnotin Hnd'].
    subst. destruct i as [|i]; cbn [nth_error dict_get] in *.
    + injection Hn as -> ->. rewrite str_eqb_refl. reflexivity.
    + destruct (str_eqb k k') eqn:E.
      * apply str_eqb_eq in E. subst k'. exfalso. apply Hnotin.
        apply nth_error_In in Hn.
        apply (in_map fst) in Hn. exact Hn.
      * apply (IH i Hnd' Hn).
Qed.

Lemma index_of_nth (l : list str) (i : nat) (x : str) :
  NoDup l -> nth_error l i = Some x -> index_of x l = Some i.
Proof.
  revert i. induction l as [|y l IH]; intros i Hnd Hn.
  - destruct i; discriminate.
  - inversion Hnd as [|? ? Hnotin Hnd']. subst.
    destruct i as [|i]; cbn [nth_error index_of] in *.
    + injection Hn as ->. rewrite str_eqb_refl. reflexivity.
    + destruct (str_eqb x y) eqn:E.
      * apply str_eqb_eq in E. subst y. exfalso. apply Hnotin.
        apply (nth_error_In _ _ Hn).
      * rewrite (IH i Hnd' Hn). reflexivity.
Qed.

Lemma group_label_last (e : str * GroupInfo) :
  last (group_label e) 0%N = 41%N.
Proof.
  unfold group_label. rewrite !app_assoc.
  change (u ")") with [41%N]. apply last_last.
Qed.

Lemma group_label_not_all (e : str * GroupInfo) :
  str_eqb (group_label e) all_groups_label = false.
Proof.
  apply str_eqb_neq_false. intros E.
  pose proof (group_label_last e) as L. rewrite E in L. discriminate L.
Qed.

Lemma group_label_nonempty (e : str * GroupInfo) : group_label e <> [].
Proof.
  intros E. pose proof (group_label_last e) as L. rewrite E in L.
  discriminate L.
Qed.

(** X12.  The messages shown for a selected group are looked up by the
    position of the selector entry in the [groups] dict, while the
    entries stand in the order of the sort: picking the entry of the
    group that is [i]-th by message count shows the messages of the
    group that is [i]-th in the order of the dict.  (Entries and keys
    are assumed distinct.) *)
Theorem selection_indexes_dict_order (v : Viewer) (i : nat)
    (shown held : str * GroupInfo) :
  cb_values (group_combo v) = group_list_of v ->
  NoDup (group_list_of v) ->
  NoDup (dict_keys (groups v)) ->
  nth_error (sorted_groups v) i = Some shown ->
  nth_error (groups v) i = Some held ->
  cb_text (group_combo v) = group_label shown ->
  selected_messages v = messages (snd held).
Proof.
  intros Hvals Hnd Hkeys Hshown Hheld Htext.
  assert (Hidx : cb_current (group_combo v) = Z.of_nat (S i)).
  { unfold cb_current. rewrite Hvals, Htext.
    rewrite (index_of_nth (group_list_of v) (S i) (group_label shown) Hnd);
      [reflexivity|].
    unfold group_list_of. cbn [nth_error].
    rewrite nth_error_map, Hshown. reflexivity. }
  assert (Hlen : i < length (groups v)).
  { apply nth_error_Some. rewrite Hheld. discriminate. }
  unfold selected_messages. rewrite Hidx, Htext, group_label_not_all.
  destruct (group_label shown) as [|c rest] eqn:El;
    [exfalso; exact (group_label_nonempty shown El)|].
  cbn [orb].
  replace (Z.of_nat (S i) - 1)%Z with (Z.of_nat i) by lia.
  destruct (Z.leb_spec 0 (Z.of_nat i)); [|lia].
  destruct (Z.ltb_spec (Z.of_nat i) (Z.of_nat (length (groups v)))); [|lia].
  cbn [andb]. rewrite Nat2Z.id.
  destruct held as [k g]. unfold dict_keys.
  rewrite nth_error_map, Hheld. cbn [option_map fst].
  rewrite (dict_get_nth _ (groups v) i k g Hkeys Hheld). reflexivity.
Qed.

(** X13.  Whatever the dialog returns and whatever is selected,
    [edit_group_name] leaves the keys of [groups] in their order, the
    messages of every group, the notifications and the log lines as they
    were: a rename can only change names. *)
Theorem rename_changes_only_names (answer : option str) (v : Viewer) :
  dict_keys (groups (fst (edit_group_name answer v))) = dict_keys (groups v)
  /\ List.map (fun e => messages (snd e))
       (groups (fst (edit_group_name answer v)))
     = List.map (fun e => messages (snd e)) (groups v)
  /\ notifications (fst (edit_group_name answer v)) = notifications v
  /\ current_logs (fst (edit_group_name answer v)) = current_logs v
  /\ log_tree (fst (edit_group_name answer v)) = log_tree v.
Proof.
  unfold edit_group_name.
  destruct (str_eqb (cb_text (group_combo v)) all_groups_label
            || match cb_text (group_combo v) with
               | [] => true
               | _ :: _ => false
               end); [repeat split|].
  destruct ((cb_current (group_combo v) - 1 <? 0)%Z
            || (Z.of_nat (length (groups v))
                <=? cb_current (group_combo v) - 1)%Z); [repeat split|].
  destruct (nth_error (dict_keys (groups v))
              (Z.to_nat (cb_current (group_combo v) - 1)))
    as [group_id|]; [|repeat split].
  destruct (dict_get (groups v) group_id) as [g|] eqn:Hg; [|repeat split].
  destruct (truthy answer && negb (opt_str_eqb answer (Some (name g))));
    [|repeat split].
  cbn [fst groups notifications current_logs log_tree update_group_list
       set_group_combo set_group_names].
  split; [apply (dict_keys_set _ _ _ _ g Hg)|].
  split; [apply (messages_set _ _ g _ Hg); reflexivity|].
  repeat split.
Qed.

(** X14.  When an entry of a group is selected and the dialog returns a
    name that is not empty and differs from the group's name, the group
    at the entry's position in the dict gets that name and keeps its
    messages, the override is recorded under its id, every other
    override stays, and the whole mapping is handed over for saving. *)
Theorem rename_takes_effect (new_name : str) (v : Viewer) (i : nat)
    (group_id : str) (g : GroupInfo) :
  cb_current (group_combo v) = Z.of_nat (S i) ->
  cb_text (group_combo v) <> all_groups_label ->
  cb_text (group_combo v) <> [] ->
  NoDup (dict_keys (groups v)) ->
  nth_error (groups v) i = Some (group_id, g) ->
  new_name <> [] ->
  new_name <> name g ->
  dict_get (groups (fst (edit_group_name (Some new_name) v))) group_id
  = Some {| name := new_name; messages := messages g |}
  /\ dict_get (group_names (fst (edit_group_name (Some new_name) v)))
       group_id = Some new_name
  /\ (forall k, k <> group_id ->
        dict_get (group_names (fst (edit_group_name (Some new_name) v))) k
        = dict_get (group_names v) k)
  /\ snd (edit_group_name (Some new_name) v)
     = Some (group_names (fst (edit_group_name (Some new_name) v))).
Proof.
  intros Hidx Hall Hne Hkeys Hnth Hnew Hdiff.
  assert (Hlen : i < length (groups v)).
  { apply nth_error_Some. rewrite Hnth. discriminate. }
  assert (E : edit_group_name (Some new_name) v
              = (update_group_list
                   (set_group_names v
                      (dict_set (groups v) group_id
                         {| name := new_name; messages := messages g |})
                      (dict_set (group_names v) group_id new_name)),
                 Some (dict_set (group_names v) group_id new_name))).
  { unfold edit_group_name.
    apply str_eqb_neq_false in Hall. rewrite Hall.
    destruct (cb_text (group_combo v)) as [|c rest]; [congruence|].
    cbn [orb]. rewrite Hidx.
    replace (Z.of_nat (S i) - 1)%Z with (Z.of_nat i) by lia.
    destruct (Z.ltb_spec (Z.of_nat i) 0); [lia|].
    destruct (Z.leb_spec (Z.of_nat (length (groups v))) (Z.of_nat i));
      [lia|].
    cbn [orb]. rewrite Nat2Z.id. unfold dict_keys.
    rewrite nth_error_map, Hnth. cbn [option_map fst].
    rewrite (dict_get_nth _ (groups v) i group_id g Hkeys Hnth).
    assert (Htruthy : truthy (Some new_name) = true)
      by (destruct new_name; [congruence | reflexivity]).
    rewrite Htruthy. cbn [opt_str_eqb andb].
    apply str_eqb_neq_false in Hdiff. rewrite Hdiff. reflexivity. }
  rewrite E.
  cbn [fst snd groups group_names update_group_list set_group_combo
       set_group_names].
  split; [apply dict_get_set_same|].
  split; [apply dict_get_set_same|].
  split; [|reflexivity].
  intros k Hk. apply dict_get_set_other, Hk.
Qed.

(** X15.  A row of the message tree shows one line of at most 53
    characters: the preview holds no line feed, and it is the message
    itself when the message has at most 50 characters and no line
    feed. *)
Theorem preview_is_one_short_line (notif : NotificationData) :
  Forall (fun c => c <> 10%N) (preview notif)
  /\ length (preview notif) <= 53
  /\ (length (message notif) <= 50 ->
      Forall (fun c => c <> 10%N) (message notif) ->
      preview notif = message notif).
Proof.
  unfold preview, replace_char, char_eqb. split; [|split].
  - apply Forall_app. split.
    + apply Forall_map, Forall_forall. intros c _.
      destruct (N.eqb_spec c 10); [discriminate | assumption].
    + destruct (50 <? length (message notif)); repeat constructor;
        discriminate.
  - rewrite length_app, length_map, length_firstn.
    pose proof (Nat.le_min_l 50 (length (message notif))) as Hmin.
    destruct (50 <? length (message notif));
      [change (length (u "...")) with 3 | cbn [length]]; lia.
  - intros Hlen Hlf.
    destruct (Nat.ltb_spec 50 (length (message notif))); [lia|].
    rewrite app_nil_r, firstn_all2 by exact Hlen.
    clear Hlen H. revert Hlf. generalize (message notif) as s.
    induction 1 as [|c s Hc _ IH]; [reflexivity|].
    cbn [List.map]. apply N.eqb_neq in Hc. rewrite Hc, IH. reflexivity.
Qed.

(** X16.  The rows of the message tree being those of the notifications
    on display, selecting a row puts in the detail pane the notification
    that row shows, under the name of its group, and locks the pane; if
    the group is missing from [groups], the pane is left empty and
    editable; a position beyond the rows leaves the pane as it is. *)
Theorem detail_follows_row (v : Viewer) (i : nat) (pane : DetailPane) :
  msg_tree v = message_rows (current_displayed_messages v) ->
  match nth_error (msg_tree v) i with
  | Some row =>
      exists notif,
        nth_error (current_displayed_messages v) i = Some notif
        /\ row = (date notif, preview notif)
        /\ on_message_select v [i] pane
           = match dict_get (groups v) (group_id notif) with
             | Some g => {| pane_text := detail_text notif (name g);
                            pane_editable := false |}
             | None => {| pane_text := []; pane_editable := true |}
             end
  | None => on_message_select v [i] pane = pane
  end.
Proof.
  intros Hrows. rewrite Hrows. unfold message_rows.
  rewrite nth_error_map. unfold on_message_select.
  destruct (nth_error (current_displayed_messages v) i) as [notif|];
    cbn [option_map]; [|reflexivity].
  exists notif. repeat split.
Qed.

(* ================================================================== *)
(** ** What holds after any sequence of operations *)

Section InvariantFacts.
Context {py : PyText} {ut : Utils}.

Hypothesis parser_plain :
  forall line flag, is_group_header (parse_log_line line flag) = false.

Lemma viewer_invariant_same (a b : Viewer) :
  msg_tree a = msg_tree b ->
  current_displayed_messages a = current_displayed_messages b ->
  log_tree a = log_tree b ->
  viewer_invariant b -> viewer_invariant a.
Proof.
  unfold viewer_invariant. intros -> -> ->. tauto.
Qed.

Lemma display_list_well_grouped (w : Viewer) :
  WellGrouped (display_list w).
Proof.
  rewrite display_list_collapse_pass.
  destruct (collapse_repeated_tags w) eqn:Hc.
  - rewrite collapse_pass_runs by exact Hc.
    apply runs_out_well_grouped; [exact parser_plain | constructor].
  - rewrite collapse_pass_plain by exact Hc.
    rewrite <- (app_nil_r (List.map (parsed w) (filtered_lines w))).
    apply well_grouped_plain_app; [|constructor].
    apply Forall_map, Forall_forall. intros l _. apply parser_plain.
Qed.

Lemma invariant_apply_filter (w : Viewer) :
  viewer_invariant w -> viewer_invariant (apply_filter w).
Proof.
  intros (Hrows & _ & _). unfold viewer_invariant.
  split; [|split].
  - rewrite apply_filter_unfold. exact Hrows.
  - rewrite apply_filter_shows. apply display_list_well_grouped.
  - apply apply_filter_marks, parser_plain.
Qed.

Lemma invariant_update_message_list (w : Viewer) :
  viewer_invariant w -> viewer_invariant (update_message_list w).
Proof.
  intros (_ & Hwg & Hm). unfold viewer_invariant.
  split; [reflexivity | split; assumption].
Qed.

Lemma invariant_filter_messages (w : Viewer) :
  viewer_invariant w -> viewer_invariant (filter_messages w).
Proof.
  intros Hinv. unfold filter_messages.
  destruct (lower (msg_search_var w));
    [apply invariant_update_message_list, Hinv|].
  destruct Hinv as (_ & Hwg & Hm). unfold viewer_invariant.
  split; [reflexivity | split; assumption].
Qed.

Lemma load_log_file_cases (fs : FileSystem) (r : bool) (w : Viewer)
    (p : Path) (append : bool) :
  fst (load_log_file fs r w p append) = set_current_log_file w p
  \/ exists size lines notifs gs,
       fst (load_log_file fs r w p append)
       = if append
         then update_group_list
                (set_loaded (set_current_log_file w p) size lines notifs gs)
         else update_message_list
                (update_group_list
                   (apply_filter
                      (set_loaded (set_current_log_file w p) size lines
                         notifs gs))).
Proof.
  unfold load_log_file.
  destruct (fs p) as [f|]; [|left; reflexivity].
  destruct (is_large_file (st_size f) && negb append && negb r);
    [left; reflexivity|].
  destruct (decoded f) as [text|]; [|left; reflexivity].
  right. destruct append; cbn [fst]; eexists _, _, _, _; reflexivity.
Qed.

Lemma invariant_load (fs : FileSystem) (r : bool) (w : Viewer) (p : Path)
    (append : bool) :
  viewer_invariant w ->
  viewer_invariant (fst (load_log_file fs r w p append)).
Proof.
  intros Hinv.
  destruct (load_log_file_cases fs r w p append)
    as [->|(size & lines & notifs & gs & ->)].
  - apply (viewer_invariant_same _ w); auto.
  - assert (Hbase : viewer_invariant
                      (set_loaded (set_current_log_file w p) size lines
                         notifs gs))
      by (apply (viewer_invariant_same _ w); auto).
    destruct append.
    + apply (viewer_invariant_same _ w); auto.
    + apply invariant_update_message_list.
      apply (viewer_invariant_same _
               (apply_filter
                  (set_loaded (set_current_log_file w p) size lines
                     notifs gs))); auto.
      apply invariant_apply_filter, Hbase.
Qed.

Lemma invariant_check (fs : FileSystem) (w : Viewer) :
  viewer_invariant w -> viewer_invariant (fst (check_for_updates fs w)).
Proof.
  intros Hinv. unfold check_for_updates.
  destruct (auto_update w); cbn [negb]; [|exact Hinv].
  destruct (current_log_file w) as [p|]; [|exact Hinv].
  destruct (fs p) as [f|]; [|exact Hinv].
  destruct (negb (st_size f =? last_file_size w)%Z); [|exact Hinv].
  pose proof (invariant_load fs true w p true Hinv) as H.
  destruct (load_log_file fs true w p true) as [w' io]. exact H.
Qed.

Lemma edit_group_name_cases (answer : option str) (w : Viewer) :
  fst (edit_group_name answer w) = w
  \/ exists gs names,
       fst (edit_group_name answer w)
       = update_group_list (set_group_names w gs names).
Proof.
  unfold edit_group_name.
  destruct (str_eqb (cb_text (group_combo w)) all_groups_label
            || match cb_text (group_combo w) with
               | [] => true
               | _ :: _ => false
               end); [left; reflexivity|].
  destruct ((cb_current (group_combo w) - 1 <? 0)%Z
            || (Z.of_nat (length (groups w))
                <=? cb_current (group_combo w) - 1)%Z);
    [left; reflexivity|].
  destruct (nth_error (dict_keys (groups w))
              (Z.to_nat (cb_current (group_combo w) - 1)))
    as [group_id|]; [|left; reflexivity].
  destruct (dict_get (groups w) group_id) as [g|]; [|left; reflexivity].
  destruct (truthy answer && negb (opt_str_eqb answer (Some (name g))));
    [|left; reflexivity].
  right. eexists _, _. reflexivity.
Qed.

Lemma invariant_command (c : Command) (w : Viewer) :
  viewer_invariant w -> viewer_invariant (run_command c w).
Proof.
  intros Hinv. destruct c; cbn [run_command].
  - apply invariant_load, Hinv.
  - unfold refresh_messages.
    destruct (current_log_file w); [apply invariant_load, Hinv | exact Hinv].
  - unfold toggle_auto_update. destruct checked.
    + apply invariant_check.
      apply (viewer_invariant_same _ w); auto.
    + apply (viewer_invariant_same _ w); auto.
  - apply invariant_check, Hinv.
  - apply invariant_apply_filter, Hinv.
  - apply invariant_update_message_list, Hinv.
  - apply invariant_filter_messages, Hinv.
  - destruct (edit_group_name_cases answer w) as [->|(gs & names & ->)];
      [exact Hinv|].
    apply (viewer_invariant_same _ w); auto.
  - apply (viewer_invariant_same _ w); auto.
Qed.

(** X17.  Whatever sequence of loads, reloads, timer ticks, filter
    passes, group selections, message searches, renames and changes of
    the input widgets is applied to a viewer, three things that hold at
    the start still hold at the end: the rows of the message tree are
    those of the notifications a click is resolved against, the log
    widget shows a list in which every header is followed by the members
    it counts, and every range marked as a group fits that list.  The
    parser is assumed never to tag a record of its own as a group
    header. *)
Theorem invariant_holds_throughout (cs : list Command) (v : Viewer) :
  viewer_invariant v -> viewer_invariant (run_commands cs v).
Proof.
  revert v. induction cs as [|c cs IH]; intros v Hinv; [exact Hinv|].
  unfold run_commands. cbn [fold_left].
  apply IH, invariant_command, Hinv.
Qed.

End InvariantFacts.

(* ================================================================== *)
(** ** Search and copy *)

Lemma starts_with_spec (p s : str) :
  starts_with p s = true <-> exists b, s = p ++ b.
Proof.
  revert s. induction p as [|x p IH]; intros s.
  - split; [intros _; exists s; reflexivity | destruct s; reflexivity].
  - destruct s as [|y s]; cbn [starts_with].
    + split; [discriminate | intros [b E]; discriminate E].
    + unfold char_eqb. rewrite andb_true_iff, N.eqb_eq, IH. split.
      * intros [-> [b ->]]. exists b. reflexivity.
      * intros [b E]. injection E as -> ->. split; [reflexivity|].
        exists b. reflexivity.
Qed.

(** [contains s p] holds exactly when [p] is a contiguous block of
    [s]. *)
Lemma contains_spec (s p : str) :
  contains s p = true <-> exists a b, s = a ++ p ++ b.
Proof.
  induction s as [|c s IH].
  - cbn [contains]. rewrite orb_false_r, starts_with_spec. split.
    + intros [b E]. exists [], b. exact E.
    + intros (a & b & E). destruct a; [exists b; exact E|discriminate E].
  - cbn [contains]. rewrite orb_true_iff, starts_with_spec, IH. split.
    + intros [[b E]|(a & b & E)].
      * exists [], b. exact E.
      * exists (c :: a), b. rewrite E. reflexivity.
    + intros (a & b & E). destruct a as [|x a].
      * left. exists b. exact E.
      * right. injection E as -> ->. exists a, b. reflexivity.
Qed.

Lemma contains_trans (l s p : str) :
  contains l s = true -> contains s p = true -> contains l p = true.
Proof.
  rewrite !contains_spec. intros (a & b & ->) (a' & b' & ->).
  exists (a ++ a'), (b' ++ b). rewrite <- !app_assoc. reflexivity.
Qed.

Lemma filter_filter_implied (A : Type) (f g : A -> bool) (l : list A) :
  (forall x, f x = true -> g x = true) ->
  filter f (filter g l) = filter f l.
Proof.
  intros H. induction l as [|x l IH]; [reflexivity|].
  cbn [filter]. destruct (g x) eqn:Eg; cbn [filter].
  - rewrite IH. reflexivity.
  - destruct (f x) eqn:Ef; [|exact IH].
    rewrite (H x Ef) in Eg. discriminate Eg.
Qed.

Section SearchFacts.
Context {py : PyText} {ut : Utils}.

(** X18.  Narrowing the search can only take lines away: when the
    lowered new search text holds the lowered old one and nothing else
    differs, the lines the new search keeps are those among the lines
    the old search kept that pass the new test. *)
Theorem narrower_search_only_removes (v v' : Viewer) :
  current_logs v' = current_logs v ->
  show_filters_of v' = show_filters_of v ->
  contains (lower (search_var v')) (lower (search_var v)) = true ->
  filtered_lines v' = filter (keeps v') (filtered_lines v)
  /\ forall line, In line (filtered_lines v') -> In line (filtered_lines v).
Proof.
  intros Hlogs Hlevels Hsub.
  assert (Himp : forall line, keeps v' line = true -> keeps v line = true).
  { intros line. rewrite !keeps_spec, Hlevels, !andb_true_iff.
    intros [Hc Hl]. split; [|exact Hl].
    apply (contains_trans _ _ _ Hc Hsub). }
  assert (E : filtered_lines v' = filter (keeps v') (filtered_lines v)).
  { unfold filtered_lines. rewrite Hlogs.
    symmetry. apply filter_filter_implied, Himp. }
  split; [exact E|].
  intros line Hin. rewrite E in Hin. apply filter_In in Hin. tauto.
Qed.

End SearchFacts.

Lemma split_at_first (x : char) (a a' r r' : str) :
  ~ In x a -> ~ In x a' ->
  a ++ x :: r = a' ++ x :: r' -> a = a' /\ r = r'.
Proof.
  revert a'. induction a as [|c a IH]; intros [|c' a'] Ha Ha' E;
    cbn [app] in E.
  - injection E as ->. split; reflexivity.
  - injection E as <- _. exfalso. apply Ha'. left. reflexivity.
  - injection E as -> _. exfalso. apply Ha. left. reflexivity.
  - injection E as -> E.
    destruct (IH a') as [-> ->]; auto.
    + intros H. apply Ha. right. exact H.
    + intros H. apply Ha'. right. exact H.
Qed.

Lemma log_row_inj (r1 r2 : LogInfo) :
  ~ In 9%N (timestamp r1) -> ~ In 9%N (level r1) ->
  ~ In 9%N (timestamp r2) -> ~ In 9%N (level r2) ->
  log_row r1 = log_row r2 ->
  timestamp r1 = timestamp r2 /\ level r1 = level r2
  /\ content r1 = content r2.
Proof.
  unfold log_row. cbn [app]. intros T1 L1 T2 L2 E.
  apply split_at_first in E as [Et E]; [|assumption|assumption].
  apply split_at_first in E as [El Ec]; [|assumption|assumption].
  auto.
Qed.

Lemma join_lines_inj (rows1 rows2 : list str) :
  Forall (fun r => ~ In 10%N r) rows1 ->
  Forall (fun r => ~ In 10%N r) rows2 ->
  rows1 <> [] -> rows2 <> [] ->
  join [10%N] rows1 = join [10%N] rows2 ->
  rows1 = rows2.
Proof.
  intros H1. revert rows2.
  induction H1 as [|r1 rows1 Hr1 H1 IH]; intros rows2 H2 Hne1 Hne2 E;
    [exfalso; apply Hne1; reflexivity|].
  destruct H2 as [|r2 rows2 Hr2 H2]; [exfalso; apply Hne2; reflexivity|].
  destruct rows1 as [|s1 rows1], rows2 as [|s2 rows2]; cbn [join] in E.
  - subst. reflexivity.
  - exfalso. apply Hr1. rewrite E. apply in_or_app. right. left.
    reflexivity.
  - exfalso. apply Hr2. rewrite <- E. apply in_or_app. right. left.
    reflexivity.
  - cbn [app] in E.
    apply split_at_first in E as [-> E]; [|assumption|assumption].
    f_equal. apply IH; [exact H2 | discriminate | discriminate | exact E].
Qed.

(** X19.  Copying nothing leaves the clipboard as it is.  Copying a
    selection replaces its content, and the text copied determines what
    was selected: when no timestamp or level holds a tab and no column a
    line feed, two selections that give the same clipboard text have the
    same columns, record for record. *)
Theorem copied_text_determines_selection (sel1 sel2 : list LogInfo)
    (clip1 clip2 : str) :
  copy_selected_logs [] clip1 = clip1
  /\ (sel1 <> [] -> sel2 <> [] ->
      Forall (fun r => ~ In 9%N (timestamp r) /\ ~ In 9%N (level r)
                       /\ ~ In 10%N (log_row r)) sel1 ->
      Forall (fun r => ~ In 9%N (timestamp r) /\ ~ In 9%N (level r)
                       /\ ~ In 10%N (log_row r)) sel2 ->
      copy_selected_logs sel1 clip1 = copy_selected_logs sel2 clip2 ->
      List.map (fun r => (timestamp r, level r, content r)) sel1
      = List.map (fun r => (timestamp r, level r, content r)) sel2).
Proof.
  split; [reflexivity|].
  intros Hne1 Hne2 H1 H2 E.
  assert (Hrows : List.map log_row sel1 = List.map log_row sel2).
  { unfold copy_selected_logs in E.
    destruct sel1 as [|a sel1]; [exfalso; apply Hne1; reflexivity|].
    destruct sel2 as [|b sel2]; [exfalso; apply Hne2; reflexivity|].
    cbn [List.map] in E |- *.
    apply join_lines_inj in E; [exact E | | |discriminate|discriminate].
    - change (log_row a :: List.map log_row sel1)
        with (List.map log_row (a :: sel1)).
      apply Forall_map. eapply Forall_impl; [|exact H1].
      cbv beta. tauto.
    - change (log_row b :: List.map log_row sel2)
        with (List.map log_row (b :: sel2)).
      apply Forall_map. eapply Forall_impl; [|exact H2].
      cbv beta. tauto. }
  clear E Hne1 Hne2. revert sel2 H2 Hrows.
  induction H1 as [|a sel1 (Ta & La & _) _ IH]; intros sel2 H2 Hrows;
    destruct H2 as [|b sel2 (Tb & Lb & _) H2]; cbn [List.map] in *;
    try discriminate; [reflexivity|].
  injection Hrows as Hrow Hrest.
  destruct (log_row_inj a b Ta La Tb Lb Hrow) as (-> & -> & ->).
  f_equal. apply IH; assumption.
Qed.

(* ================================================================== *)
(** ** The further properties on the concrete instance *)

Module MoreExamples.
Import Fixture.

Lemma grown_ends_on_boundary :
  ends_on_boundary short_text (u "@hello" ++ lf).
Proof.
  right. split; [vm_compute; reflexivity|].
  vm_compute. intros E. discriminate E.
Qed.

Lemma tail_read_holds_all_lines_witness :
  let fs := one_file 15 grown_text in
  current_logs (fst (check_for_updates fs loaded_short))
  = splitlines_keepends (short_text ++ (u "@hello" ++ lf))
  /\ current_logs (fst (check_for_updates fs loaded_short))
     = current_logs (fst (full_reload fs true loaded_short the_log)).
Proof.
  apply (tail_read_holds_all_lines (one_file 15 grown_text) loaded_short
           the_log {| st_size := 15; decoded := Some grown_text |}
           short_text (u "@hello" ++ lf)).
  - vm_compute. reflexivity.
  - vm_compute. reflexivity.
  - vm_compute. reflexivity.
  - vm_compute. lia.
  - reflexivity.
  - vm_compute. reflexivity.
  - exact grown_ends_on_boundary.
Defined.



Lemma read_only_on_size_change_witness :
  auto_update loaded_short = true
  /\ current_log_file loaded_short = Some the_log
  /\ exists f,
       one_file 15 grown_text the_log = Some f
       /\ st_size f <> last_file_size loaded_short.
Proof.
  apply (read_only_on_size_change (one_file 15 grown_text) loaded_short
           the_log).
  vm_compute. right. right. right. left. reflexivity.
Defined.

Lemma loaded_lines_are_the_text_witness :
  concat (current_logs
            (fst (load_log_file (one_file 14 long_text) true (fresh true)
                    the_log false)))
  = long_text
  /\ Forall (fun line => line <> [])
       (current_logs
          (fst (load_log_file (one_file 14 long_text) true (fresh true)
                  the_log false))).
Proof.
  apply (loaded_lines_are_the_text (one_file 14 long_text) true (fresh true)
           the_log {| st_size := 14; decoded := Some long_text |} long_text).
  - vm_compute. reflexivity.
  - reflexivity.
  - vm_compute. reflexivity.
Defined.

Lemma collapse_off_passes_through_witness :
  let v := uncollapsed [network_line; network_line; network_line] in
  log_tree (apply_filter v)
  = {| is_virtual := is_virtual (log_tree v);
       lt_logs := List.map (parsed v) (filtered_lines v);
       lt_marks := [] |}
  /\ stats_label (apply_filter v)
     = stats_text (length (filtered_lines v)) (length (current_logs v)).
Proof.
  apply (collapse_off_passes_through
           (uncollapsed [network_line; network_line; network_line])).
  reflexivity.
Defined.

Lemma tag_found_iff_bracketed_block_witness :
  exists pre post,
    network_line = pre ++ 91%N :: u "Network" ++ 93%N :: post
    /\ u "Network" <> [] /\ forallb tag_char (u "Network") = true.
Proof.
  apply (proj1 (tag_found_iff_bracketed_block network_line) (u "Network")).
  vm_compute. reflexivity.
Defined.

Lemma number_does_not_break_run_witness :
  joins (with_logs [retry_17; retry_42]) retry_17 retry_42 = true.
Proof.
  apply (number_does_not_break_run (with_logs [retry_17; retry_42])
           retry_17 retry_42 (u "retry ") (u "17") (u "42") (u " failed")).
  - vm_compute. reflexivity.
  - vm_compute. reflexivity.
  - vm_compute. reflexivity.
  - vm_compute. reflexivity.
  - discriminate.
  - vm_compute. reflexivity.
  - vm_compute. reflexivity.
  - reflexivity.
Defined.

Lemma selection_indexes_dict_order_witness :
  List.map group_label (sorted_groups clubs) = [u "g2 (2)"; u "g1 (1)"]
  /\ selected_messages (clubs_selecting (u "g2 (2)"))
     = [note_in "g1" "2024.01.01" "first"].
Proof.
  split; [vm_compute; reflexivity|].
  apply (selection_indexes_dict_order (clubs_selecting (u "g2 (2)")) 0
           (u "g2", {| name := u "g2";
                       messages := [note_in "g2" "2024.01.02" "second";
                                    note_in "g2" "2024.01.03" "third"] |})
           (u "g1", {| name := u "g1";
                       messages := [note_in "g1" "2024.01.01" "first"] |})).
  - vm_compute. reflexivity.
  - vm_compute. repeat constructor; cbn; intuition discriminate.
  - vm_compute. repeat constructor; cbn; intuition discriminate.
  - vm_compute. reflexivity.
  - vm_compute. reflexivity.
  - vm_compute. reflexivity.
Defined.

Lemma rename_takes_effect_witness :
  let v' := fst (edit_group_name (Some (u "Friends"))
                   (clubs_selecting (u "g2 (2)"))) in
  dict_get (groups v') (u "g1")
  = Some {| name := u "Friends";
            messages := [note_in "g1" "2024.01.01" "first"] |}
  /\ dict_get (group_names v') (u "g1") = Some (u "Friends")
  /\ (forall k, k <> u "g1" ->
        dict_get (group_names v') k
        = dict_get (group_names (clubs_selecting (u "g2 (2)"))) k)
  /\ snd (edit_group_name (Some (u "Friends"))
            (clubs_selecting (u "g2 (2)")))
     = Some (group_names v').
Proof.
  apply (rename_takes_effect (u "Friends") (clubs_selecting (u "g2 (2)")) 0
           (u "g1")
           {| name := u "g1";
              messages := [note_in "g1" "2024.01.01" "first"] |}).
  - vm_compute. reflexivity.
  - vm_compute. discriminate.
  - vm_compute. discriminate.
  - vm_compute. repeat constructor; cbn; intuition discriminate.
  - vm_compute. reflexivity.
  - vm_compute. discriminate.
  - vm_compute. discriminate.
Defined.

Lemma preview_is_one_short_line_witness :
  preview (note "2024.01.01 10:00:00" "hello") = u "hello".
Proof.
  apply (proj2 (proj2 (preview_is_one_short_line
                         (note "2024.01.01 10:00:00" "hello")))).
  - vm_compute. lia.
  - vm_compute. repeat constructor; discriminate.
Defined.

Lemma detail_follows_row_witness :
  match nth_error (msg_tree clubs_listed) 0 with
  | Some row =>
      exists notif,
        nth_error (current_displayed_messages clubs_listed) 0 = Some notif
        /\ row = (date notif, preview notif)
        /\ on_message_select clubs_listed [0] empty_pane
           = match dict_get (groups clubs_listed) (group_id notif) with
             | Some g => {| pane_text := detail_text notif (name g);
                            pane_editable := false |}
             | None => {| pane_text := []; pane_editable := true |}
             end
  | None => on_message_select clubs_listed [0] empty_pane = empty_pane
  end.
Proof.
  apply (detail_follows_row clubs_listed 0 empty_pane).
  vm_compute. reflexivity.
Defined.

Lemma invariant_holds_throughout_witness :
  viewer_invariant
    (run_commands
       [LoadFile (one_file 14 long_text) true the_log;
        UserInput (u "o") all_levels true true [] [];
        ApplyFilter;
        ToggleAutoUpdate (one_file 14 long_text) true;
        TimerTick (one_file 4 rotated_text);
        FilterMessages;
        EditGroupName (Some (u "Friends"))]
       (fresh true)).
Proof.
  apply (invariant_holds_throughout Examples.parse_line_plain).
  repeat split; constructor.
Defined.

Lemma narrower_search_only_removes_witness :
  let v := with_search (with_logs [network_line; other_line]) (u "e") in
  let v' := with_search (with_logs [network_line; other_line]) (u "RE") in
  filtered_lines v' = filter (keeps v') (filtered_lines v)
  /\ forall line, In line (filtered_lines v') -> In line (filtered_lines v).
Proof.
  apply (narrower_search_only_removes
           (with_search (with_logs [network_line; other_line]) (u "e"))
           (with_search (with_logs [network_line; other_line]) (u "RE"))).
  - reflexivity.
  - reflexivity.
  - vm_compute. reflexivity.
Defined.

Lemma copied_text_determines_selection_witness :
  List.map (fun r => (timestamp r, level r, content r))
    [parse_line other_line true]
  = List.map (fun r => (timestamp r, level r, content r))
      [parse_line other_line false].
Proof.
  apply (proj2 (copied_text_determines_selection
                  [parse_line other_line true] [parse_line other_line false]
                  [] [])).
  - discriminate.
  - discriminate.
  - vm_compute. repeat constructor; intuition discriminate.
  - vm_compute. repeat constructor; intuition discriminate.
  - vm_compute. reflexivity.
Defined.

End MoreExamples.
